(** * Cell brightness analyzer: a shallow embedding and its properties

    The development follows [cell_brightness_analyzer.py].  The analyzer
    object ([self.image], [self.cells], [self.results]) together with the
    [Cell] objects it refers to is an explicit state; every method is a
    function from states to an outcome and a new state, so that an
    exception leaves behind whatever had been mutated before it was
    raised.  [Cell] objects live in a store and are named by references:
    [calculate_brightness] writes through the reference, as the Python
    method writes [cell.brightness].

    Numbers.  Python [int] is [Z].  Samples of the image are integers
    (the loader produces 8-bit samples).  A Python [float] is modelled by
    an exact rational or NaN: for 8-bit samples the sums that [np.mean]
    and [np.median] form are exact in double precision and the final
    division rounds monotonically, so order comparisons between the
    results are those of the exact quotients. *)

From Stdlib Require Import ZArith QArith Qround Ascii String List DecimalString
  DecimalZ DecimalPos Lia Lqa.
From stdpp Require Import base list sorting numbers strings.

Local Open Scope Z_scope.

(** ** Python values and exceptions *)

Module Py.

(** The exception classes that the analyzer and the array library raise,
    and, by its name, any other class, which the file and plotting
    libraries may raise. *)
Inductive exn : Type :=
| ValueError (msg : string)
| ZeroDivisionError
| IndexError
| OtherError (class_name : string).

Inductive outcome (A : Type) : Type :=
| Ok (a : A)
| Raise (e : exn).
Arguments Ok {A} a.
Arguments Raise {A} e.

Definition is_ok {A} (o : outcome A) : Prop :=
  match o with Ok _ => True | Raise _ => False end.

Definition raises {A} (o : outcome A) : Prop :=
  match o with Ok _ => False | Raise _ => True end.

(** A [float]: a finite value or NaN. *)
Inductive pyfloat : Type :=
| Fin (q : Q)
| NaN.

(** [str(i)] for an [int], as an f-string formats it. *)
Definition str (i : Z) : string := NilZero.string_of_int (Z.to_int i).

(** [range(n)]: empty when [n <= 0]. *)
Definition range (n : Z) : list Z := map Z.of_nat (seq 0 (Z.to_nat n)).

(** [enumerate(l)]. *)
Definition enumerate {A} (l : list A) : list (nat * A) :=
  zip (seq 0 (length l)) l.

(** Index adjustment of a slice bound against a sequence of length [n]
    (step 1): a negative bound counts from the end, and every bound is
    clamped into [0, n]. *)
Definition adjust_index (n i : Z) : Z :=
  if i <? 0 then (if i + n <? 0 then 0 else i + n)
  else (if n <=? i then n else i).

(** [l[start:stop]] where [n] is the length of the sliced axis. *)
Definition slice {A} (n start stop : Z) (l : list A) : list A :=
  let a := adjust_index n start in
  let b := adjust_index n stop in
  take (Z.to_nat (b - a)) (drop (Z.to_nat a) l).

End Py.
Export Py.

(** ** The image and the array reductions *)

(** A grayscale image: rows of samples, all rows of one length. *)
Definition IntensityGrid : Type := list (list Z).

Definition row_length (g : IntensityGrid) : nat :=
  match g with
  | [] => 0%nat
  | row :: _ => length row
  end.

Definition rectangular (g : IntensityGrid) : Prop :=
  Forall (λ row, length row = row_length g) g.

(** [image.shape], as [(img_height, img_width)]. *)
Definition shape (g : IntensityGrid) : Z * Z :=
  (Z.of_nat (length g), Z.of_nat (row_length g)).

Module Np.

(** [a[r0:r1, c0:c1]] on a two-dimensional array. *)
Definition slice2 (g : IntensityGrid) (r0 r1 c0 c1 : Z) : IntensityGrid :=
  map (slice (snd (shape g)) c0 c1) (slice (fst (shape g)) r0 r1 g).

(** The samples of an array in row-major order: every reduction below is
    taken over the flattened array ([axis=None]). *)
Definition ravel (g : IntensityGrid) : list Z := concat g.

Definition sumZ (l : list Z) : Z := foldr Z.add 0 l.

Definition maxZ (a : Z) (l : list Z) : Z := foldr Z.max a l.

(** What [np.percentile] does on a zero-size array differs between
    releases of the library (NaN with a warning, or an [IndexError]); it
    is left open here. *)
Class Release : Type := { percentile_of_empty : outcome pyfloat }.

(** [np.mean]: NaN (with a warning, no exception) on a zero-size array. *)
Definition mean (l : list Z) : pyfloat :=
  match l with
  | [] => NaN
  | _ => Fin (Qred (inject_Z (sumZ l) / inject_Z (Z.of_nat (length l))))
  end.

(** [np.max]: raises on a zero-size array. *)
Definition max (l : list Z) : outcome Z :=
  match l with
  | [] => Raise (ValueError
      "zero-size array to reduction operation maximum which has no identity")
  | a :: l' => Ok (maxZ a l')
  end.

Definition sorted (l : list Z) : list Z := merge_sort Z.le l.

(** [np.median]: the middle order statistic, or the mean of the two
    middle ones for an even count; NaN on a zero-size array. *)
Definition median (l : list Z) : pyfloat :=
  let s := sorted l in
  let n := length l in
  match n with
  | O => NaN
  | _ =>
    if Nat.even n
    then Fin (Qred ((inject_Z (nth (n / 2 - 1)%nat s 0)
                     + inject_Z (nth (n / 2)%nat s 0)) / 2))
    else Fin (inject_Z (nth (n / 2)%nat s 0))
  end.

(** [np.percentile(a, q)] with the default linear interpolation between
    the order statistics around the virtual index [(n-1) * q / 100]. *)
Definition percentile `{Release} (l : list Z) (q : Q) : outcome pyfloat :=
  let s := sorted l in
  let n := length l in
  match n with
  | O => percentile_of_empty
  | _ =>
    let idx := (inject_Z (Z.of_nat n - 1) * q / 100)%Q in
    let lo := Qfloor idx in
    let hi := Z.min (lo + 1) (Z.of_nat n - 1) in
    let frac := (idx - inject_Z lo)%Q in
    let a := inject_Z (nth (Z.to_nat lo) s 0) in
    let b := inject_Z (nth (Z.to_nat hi) s 0) in
    Ok (Fin (Qred (a + (b - a) * frac)))
  end.

End Np.

(** ** Cells and the analyzer *)

(** The dataclass [Cell]. *)
Record Cell : Type := mkCell {
  x : Z;
  y : Z;
  width : Z;
  height : Z;
  brightness : pyfloat;
  cell_id : option string
}.

(** [Cell(x=.., y=.., width=.., height=.., cell_id=..)]: no call in the
    module passes [brightness], which takes its default [0.0]. *)
Definition Cell_init (x y width height : Z) (cell_id : option string) : Cell :=
  mkCell x y width height (Fin 0) cell_id.

Definition with_brightness (b : pyfloat) (c : Cell) : Cell :=
  mkCell (x c) (y c) (width c) (height c) b (cell_id c).

#[global] Instance Cell_inhabited : Inhabited Cell :=
  populate (Cell_init 0 0 0 0 None).

(** The dictionary built by [Cell.to_dict], keys in insertion order. *)
Record ResultRecord : Type := mkRecord {
  r_cell_id : option string;
  r_x : Z;
  r_y : Z;
  r_width : Z;
  r_height : Z;
  r_brightness : pyfloat
}.

Definition to_dict (c : Cell) : ResultRecord :=
  mkRecord (cell_id c) (x c) (y c) (width c) (height c) (brightness c).

(** A reference to a [Cell] object in the store. *)
Abbreviation ref := nat (only parsing).

(** The analyzer object and the [Cell] objects allocated so far. *)
Record Analyzer : Type := mkAnalyzer {
  store : list Cell;
  image : option IntensityGrid;
  cells : list ref;
  results : list ResultRecord
}.

(** [CellBrightnessAnalyzer()] *)
Definition init : Analyzer := mkAnalyzer [] None [] [].

(** *** Computations: a state that survives exceptions *)

Definition M (A : Type) : Type := Analyzer → outcome A * Analyzer.

#[global] Instance M_ret : MRet M := λ A a s, (Ok a, s).

#[global] Instance M_bind : MBind M := λ A B k m s,
  match m s with
  | (Ok a, s') => k a s'
  | (Raise e, s') => (Raise e, s')
  end.

Definition raise {A} (e : exn) : M A := λ s, (Raise e, s).

Definition lift {A} (o : outcome A) : M A := λ s, (o, s).

Definition get : M Analyzer := λ s, (Ok s, s).

Definition modify (f : Analyzer → Analyzer) : M unit := λ s, (Ok tt, f s).

Fixpoint foldM {A B} (f : B → A → M B) (acc : B) (l : list A) : M B :=
  match l with
  | [] => mret acc
  | a :: l' => acc' ← f acc a; foldM f acc' l'
  end.

(** Allocation of a fresh [Cell] object. *)
Definition alloc (c : Cell) : M ref := λ s,
  (Ok (length (store s)),
   mkAnalyzer (store s ++ [c]) (image s) (cells s) (results s)).

(** Reading the object behind a reference. *)
Definition deref (r : ref) : M Cell := λ s, (Ok (store s !!! r), s).

(** [cell.brightness = b] *)
Definition write_brightness (r : ref) (b : pyfloat) : M unit :=
  modify (λ s, mkAnalyzer (alter (with_brightness b) r (store s))
                          (image s) (cells s) (results s)).

(** [self.cells = l] *)
Definition set_cells (l : list ref) : M unit :=
  modify (λ s, mkAnalyzer (store s) (image s) l (results s)).

(** [self.cells.append(r)] *)
Definition append_cell (r : ref) : M unit :=
  modify (λ s, mkAnalyzer (store s) (image s) (cells s ++ [r]) (results s)).

(** [self.results = l] *)
Definition set_results (l : list ResultRecord) : M unit :=
  modify (λ s, mkAnalyzer (store s) (image s) (cells s) l).

Definition no_image : exn :=
  ValueError "No image loaded. Call load_image() first.".

(** The guard [if self.image is None: raise ValueError(...)]. *)
Definition loaded_image : M IntensityGrid := λ s,
  match image s with
  | None => (Raise no_image, s)
  | Some img => (Ok img, s)
  end.

(** [a // b] on integers. *)
Definition floordiv (a b : Z) : M Z :=
  if b =? 0 then raise ZeroDivisionError else mret (a / b).

(** ** Region definition *)

(** The image-processing library is an interface: the analyzer only
    passes its results along.  [threshold] returns the pair
    [(retval, dst)]; of [findContours] only the contours are kept. *)
Class OpenCV : Type := {
  Contour : Type;
  threshold : IntensityGrid → Z → Z → Z → Q * IntensityGrid;
  adaptiveThreshold : IntensityGrid → Z → Z → Z → Z → Z → IntensityGrid;
  findContours : IntensityGrid → Z → Z → list Contour;
  contourArea : Contour → Q;
  boundingRect : Contour → Z * Z * Z * Z
}.

Definition THRESH_BINARY : Z := 0.
Definition THRESH_OTSU : Z := 8.
Definition ADAPTIVE_THRESH_GAUSSIAN_C : Z := 1.
Definition RETR_EXTERNAL : Z := 0.
Definition CHAIN_APPROX_SIMPLE : Z := 2.

Section Detection.
Context `{OpenCV}.

(** The binary image for a threshold method token. *)
Definition binarize (img : IntensityGrid) (threshold_method : string)
  : IntensityGrid :=
  if String.eqb threshold_method "otsu" then
    snd (threshold img 0 255 (THRESH_BINARY + THRESH_OTSU))
  else if String.eqb threshold_method "adaptive" then
    adaptiveThreshold img 255 ADAPTIVE_THRESH_GAUSSIAN_C THRESH_BINARY 11 2
  else
    snd (threshold img 127 255 THRESH_BINARY).

(** One iteration of the loop over [enumerate(contours)]. *)
Definition detect_step (min_area : Z) (cells : list ref)
    (ic : nat * Contour) : M (list ref) :=
  let '(i, contour) := ic in
  let area := contourArea contour in
  if Qle_bool (inject_Z min_area) area then
    let '(x, y, w, h) := boundingRect contour in
    cell ← alloc (Cell_init x y w h
                    (Some ("cell_" +:+ str (Z.of_nat i + 1))));
    mret (cells ++ [cell])
  else mret cells.

Definition detect_cells_automatically (min_area : Z)
    (threshold_method : string) : M (list ref) :=
  img ← loaded_image;
  let binary := binarize img threshold_method in
  let contours := findContours binary RETR_EXTERNAL CHAIN_APPROX_SIMPLE in
  cells ← foldM (detect_step min_area) [] (enumerate contours);
  set_cells cells;;
  mret cells.

(** The filter of the detection loop: [area >= min_area]. *)
Definition keeps (min_area : Z) (ic : nat * Contour) : bool :=
  Qle_bool (inject_Z min_area) (contourArea (snd ic)).

(** The cell built for the contour at index [i] over all contours. *)
Definition detected_cell (ic : nat * Contour) : Cell :=
  let '(x, y, w, h) := boundingRect (snd ic) in
  Cell_init x y w h (Some ("cell_" +:+ str (Z.of_nat (fst ic) + 1))).

End Detection.

Definition add_cell_manual (x y width height : Z) (cell_id : option string)
  : M ref :=
  s ← get;
  let cell_id :=
    match cell_id with
    | None => "cell_" +:+ str (Z.of_nat (length (cells s)) + 1)
    | Some c => c
    end in
  cell ← alloc (Cell_init x y width height (Some cell_id));
  append_cell cell;;
  mret cell.

(** The body of the inner loop of [add_cells_grid]. *)
Definition grid_step (margin spacing cell_width cell_height row : Z)
    (cells : list ref) (col : Z) : M (list ref) :=
  let x := margin + col * (cell_width + spacing) in
  let y := margin + row * (cell_height + spacing) in
  let cell_id := "cell_r" +:+ str (row + 1) +:+ "_c" +:+ str (col + 1) in
  cell ← alloc (Cell_init x y cell_width cell_height (Some cell_id));
  append_cell cell;;
  mret (cells ++ [cell]).

Definition add_cells_grid (rows cols margin spacing : Z) : M (list ref) :=
  img ← loaded_image;
  let '(img_height, img_width) := shape img in
  cell_width ← floordiv (img_width - 2 * margin - (cols - 1) * spacing) cols;
  cell_height ← floordiv (img_height - 2 * margin - (rows - 1) * spacing) rows;
  foldM (λ cells row,
           foldM (grid_step margin spacing cell_width cell_height row)
                 cells (range cols))
        [] (range rows).

(** ** Brightness reduction and analysis *)

Section Reduce.
Context `{Np.Release}.

(** [self.image[cell.y:cell.y+cell.height, cell.x:cell.x+cell.width]] *)
Definition cell_region (img : IntensityGrid) (c : Cell) : IntensityGrid :=
  Np.slice2 img (y c) (y c + height c) (x c) (x c + width c).

(** The dispatch on the method token, on the extracted region. *)
Definition reduce (cell_region : IntensityGrid) (method : string)
  : outcome pyfloat :=
  if String.eqb method "mean" then
    Ok (Np.mean (Np.ravel cell_region))
  else if String.eqb method "median" then
    Ok (Np.median (Np.ravel cell_region))
  else if String.eqb method "max" then
    match Np.max (Np.ravel cell_region) with
    | Ok m => Ok (Fin (inject_Z m))
    | Raise e => Raise e
    end
  else if String.eqb method "percentile" then
    Np.percentile (Np.ravel cell_region) 95
  else
    Raise (ValueError ("Unknown method: " +:+ method)).

Definition calculate_brightness (cell : ref) (method : string) : M pyfloat :=
  img ← loaded_image;
  c ← deref cell;
  brightness ← lift (reduce (cell_region img c) method);
  write_brightness cell brightness;;
  mret brightness.

Definition no_cells : exn := ValueError "No cells defined. Add cells first.".

(** The body of the loop of [analyze_all_cells]. *)
Definition analyze_step (method : string) (results : list ResultRecord)
    (cell : ref) : M (list ResultRecord) :=
  _ ← calculate_brightness cell method;
  c ← deref cell;
  mret (results ++ [to_dict c]).

Definition analyze_all_cells (method : string) : M (list ResultRecord) :=
  s ← get;
  match cells s with
  | [] => raise no_cells
  | _ =>
    results ← foldM (analyze_step method) [] (cells s);
    set_results results;;
    mret results
  end.

(** The record that the analysis produces for a cell. *)
Definition record_of (img : IntensityGrid) (method : string) (c : Cell)
  : ResultRecord :=
  match reduce (cell_region img c) method with
  | Ok b => to_dict (with_brightness b c)
  | Raise _ => to_dict c
  end.

(** The reduction succeeds on every cell that [l] refers to in [st]. *)
Definition reducible (img : IntensityGrid) (method : string)
    (st : list Cell) (l : list nat) : Prop :=
  Forall (λ r, ∃ c, st !! r = Some c
                    ∧ is_ok (reduce (cell_region img c) method)) l.

End Reduce.

(** ** Batch processing *)

(** The keyword arguments that [grid_params] holds for [add_cells_grid],
    [margin] and [spacing] with their default 0 filled in.  A
    [grid_params] that is [None] or an empty dictionary counts as
    absent. *)
Record GridParams : Type := mkGridParams {
  gp_rows : Z;
  gp_cols : Z;
  gp_margin : Z;
  gp_spacing : Z
}.

(** [pd.concat(objs, ignore_index=True)] on frames of the same columns,
    which raises on an empty list. *)
Definition pd_concat {A} (objs : list (list A)) : outcome (list A) :=
  match objs with
  | [] => Raise (ValueError "No objects to concatenate")
  | _ => Ok (concat objs)
  end.

(** The file and plotting libraries, as [visualize_cells] and the batch
    use them; each call may raise.  [result_file], [viz_file] and
    [combined_file] are the paths
    [output_folder / f"{image_file.stem}_results.csv"],
    [output_folder / f"{image_file.stem}_visualization.png"] and
    [output_folder / "combined_results.csv"], the first two for the image
    file of a given name.  [to_csv frame path] is
    [frame.to_csv(path, index=False)].  [draw] is all that
    [visualize_cells] does once an image is loaded: it draws the image
    and the cells with their brightness, saves the figure when a path is
    given, and shows it. *)
Class Export : Type := {
  result_file : string → string;
  viz_file : string → string;
  combined_file : string;
  to_csv : list (ResultRecord * string) → string → outcome unit;
  draw : IntensityGrid → list Cell → bool → string → option string
         → outcome unit
}.

Section Batch.
Context `{OpenCV} `{Np.Release} `{Export}.

(** [visualize_cells]: the "No image loaded" [ValueError] without an
    image; otherwise the figure, of the image and of the cells of
    [self.cells] as they are. *)
Definition visualize_cells (show_values : bool) (colormap : string)
    (save_path : option string) : M unit :=
  img ← loaded_image;
  s ← get;
  lift (draw img (map (λ r, store s !!! r) (cells s))
             show_values colormap save_path).

(** The choice of the region definition in the loop of
    [batch_process_images]. *)
Definition batch_detect (cell_detection : string)
    (grid_params : option GridParams) : M unit :=
  if String.eqb cell_detection "auto" then
    _ ← detect_cells_automatically 100 "otsu"; mret tt
  else if String.eqb cell_detection "grid" then
    match grid_params with
    | Some gp =>
      _ ← add_cells_grid (gp_rows gp) (gp_cols gp)
                         (gp_margin gp) (gp_spacing gp);
      mret tt
    | None => mret tt
    end
  else mret tt.

(** One iteration of that loop, on an image file given by its name and
    by the grayscale image that [load_image] reads from it: a new
    analyzer, the image, the region definition, the analysis with the
    default method, the column [image_name], the results file and the
    figure.  The result is the frame [df] that the loop appends to
    [all_results]. *)
Definition process_image (cell_detection : string)
    (grid_params : option GridParams) (image_file : string * IntensityGrid)
  : outcome (list (ResultRecord * string)) :=
  let '(name, img) := image_file in
  let analyzer := mkAnalyzer [] (Some img) [] [] in
  match (batch_detect cell_detection grid_params;;
         analyze_all_cells "mean") analyzer with
  | (Raise e, _) => Raise e
  | (Ok records, analyzer) =>
    let df := map (λ record, (record, name)) records in
    match to_csv df (result_file name) with
    | Raise e => Raise e
    | Ok _ =>
      match fst (visualize_cells true "viridis" (Some (viz_file name))
                                 analyzer) with
      | Raise e => Raise e
      | Ok _ => Ok df
      end
    end
  end.

(** The loop over [image_files], appending to [all_results]. *)
Fixpoint batch_loop (cell_detection : string)
    (grid_params : option GridParams)
    (all_results : list (list (ResultRecord * string)))
    (image_files : list (string * IntensityGrid))
  : outcome (list (list (ResultRecord * string))) :=
  match image_files with
  | [] => Ok all_results
  | image_file :: rest =>
    match process_image cell_detection grid_params image_file with
    | Ok df => batch_loop cell_detection grid_params (all_results ++ [df]) rest
    | Raise e => Raise e
    end
  end.

(** [batch_process_images], on the image files of the folder (those of
    a known extension, in the order of the directory listing). *)
Definition batch_process_images (cell_detection : string)
    (grid_params : option GridParams)
    (image_files : list (string * IntensityGrid))
  : outcome (list (ResultRecord * string)) :=
  match batch_loop cell_detection grid_params [] image_files with
  | Raise e => Raise e
  | Ok all_results =>
    match pd_concat all_results with
    | Raise e => Raise e
    | Ok combined_df =>
      match to_csv combined_df combined_file with
      | Raise e => Raise e
      | Ok _ => Ok combined_df
      end
    end
  end.

(** The results file and the figure of an image file get written, when
    the region definition and the analysis on its image return. *)
Definition image_exports_return (cell_detection : string)
    (grid_params : option GridParams) (image_file : string * IntensityGrid)
  : Prop :=
  let '(name, img) := image_file in
  match (batch_detect cell_detection grid_params;;
         analyze_all_cells "mean") (mkAnalyzer [] (Some img) [] []) with
  | (Raise _, _) => True
  | (Ok records, analyzer) =>
    to_csv (map (λ record, (record, name)) records) (result_file name)
    = Ok tt
    ∧ fst (visualize_cells true "viridis" (Some (viz_file name)) analyzer)
      = Ok tt
  end.

(** The file and plotting libraries raise on no call that the batch
    makes of them: on the results file and the figure of no image file,
    and not on the combined file when the loop gets through. *)
Definition exports_return (cell_detection : string)
    (grid_params : option GridParams)
    (image_files : list (string * IntensityGrid)) : Prop :=
  Forall (image_exports_return cell_detection grid_params) image_files
  ∧ match batch_loop cell_detection grid_params [] image_files with
    | Raise _ => True
    | Ok all_results =>
      match pd_concat all_results with
      | Raise _ => True
      | Ok combined_df => to_csv combined_df combined_file = Ok tt
      end
    end.

End Batch.

(** * Vocabulary of the statements *)

(** The state after the cells [new] have been allocated, and, when
    [track] is set, appended to [self.cells] as well. *)
Definition allocated (track : bool) (new : list Cell) (s : Analyzer)
  : Analyzer :=
  mkAnalyzer (store s ++ new) (image s)
    (if track then cells s ++ seq (length (store s)) (length new)
     else cells s)
    (results s).

(** A loop body that allocates the cells [mk a] and appends their
    references to its accumulator. *)
Definition allocates {A} (track : bool) (f : list ref → A → M (list ref))
    (mk : A → list Cell) : Prop :=
  ∀ acc a s,
    f acc a s
    = (Ok (acc ++ seq (length (store s)) (length (mk a))),
       allocated track (mk a) s).

(** The cell that [add_cells_grid] builds at [(row, col)]. *)
Definition grid_cell (margin spacing cell_width cell_height row col : Z)
  : Cell :=
  Cell_init (margin + col * (cell_width + spacing))
            (margin + row * (cell_height + spacing))
            cell_width cell_height
            (Some ("cell_r" +:+ str (row + 1) +:+ "_c" +:+ str (col + 1))).

Definition grid_row (margin spacing cell_width cell_height cols row : Z)
  : list Cell :=
  flat_map (λ col, [grid_cell margin spacing cell_width cell_height row col])
           (range cols).

Definition grid_cells (margin spacing cell_width cell_height rows cols : Z)
  : list Cell :=
  flat_map (grid_row margin spacing cell_width cell_height cols) (range rows).

(** The pixel [(px, py)] lies in the rectangle of [c]. *)
Definition covers (c : Cell) (px py : Z) : Prop :=
  x c ≤ px < x c + width c ∧ y c ≤ py < y c + height c.

(** Two cells overlap when some pixel lies in both. *)
Definition overlap (c1 c2 : Cell) : Prop :=
  ∃ px py, covers c1 px py ∧ covers c2 px py.

(** The method tokens that [calculate_brightness] knows. *)
Definition recognized (method : string) : Prop :=
  method = "mean" ∨ method = "median" ∨ method = "max"
  ∨ method = "percentile".

Definition zero_size : exn :=
  ValueError
    "zero-size array to reduction operation maximum which has no identity".

(** [st'] holds the same cells as [st] up to their brightness fields. *)
Definition same_geometry (st st' : list Cell) : Prop :=
  Forall2 (λ c c', ∃ b, c' = with_brightness b c) st st'.

(** The sample at row [r] and column [c] of the grid. *)
Definition pixel (img : IntensityGrid) (r c : Z) : Z :=
  nth (Z.to_nat c) (nth (Z.to_nat r) img []) 0.

(** The integers of the half-open interval from [a] to [b]. *)
Definition zrange (a b : Z) : list Z :=
  map (λ i, a + Z.of_nat i) (seq 0 (Z.to_nat (b - a))).

(** The part of the rectangle of [c] that lies inside the grid: the
    samples at the rows [y <= r < y + height] and the columns
    [x <= col < x + width] that the grid has. *)
Definition intersection (img : IntensityGrid) (c : Cell) : IntensityGrid :=
  map (λ r, map (pixel img r)
                (zrange (Z.max 0 (x c))
                        (Z.min (snd (shape img)) (x c + width c))))
      (zrange (Z.max 0 (y c))
              (Z.min (fst (shape img)) (y c + height c))).

(** The region's far edge lies beyond the grid on some axis. *)
Definition past_edges (img : IntensityGrid) (c : Cell) : Prop :=
  x c + width c > snd (shape img) ∨ y c + height c > fst (shape img).

(** A computation that only allocates cells whose brightness is the
    default [0.0]: the store grows by the new cells, the cells already
    there are untouched, and the references returned (read off the
    result by [refs_of]) are those of the new cells. *)
Definition creates_uncomputed {A} (refs_of : A → list nat) (m : M A) : Prop :=
  ∀ s, ∃ new,
    store (snd (m s)) = store s ++ new
    ∧ Forall (λ c, brightness c = Fin 0) new
    ∧ match fst (m s) with
      | Ok a => refs_of a = seq (length (store s)) (length new)
      | Raise _ => new = []
      end.

(** Every sample of the grid lies between [lo] and [hi]. *)
Definition bounded (lo hi : Z) (img : IntensityGrid) : Prop :=
  Forall (Forall (λ v, lo ≤ v ≤ hi)) img.

(** Every reference of [self.cells] denotes an allocated cell, and no
    cell occurs twice. *)
Definition wf (s : Analyzer) : Prop :=
  NoDup (cells s) ∧ Forall (λ r : nat, (r < length (store s))%nat) (cells s).

(** The character [a] does not occur in [s]. *)
Fixpoint free_of (a : Ascii.ascii) (s : string) : Prop :=
  match s with
  | EmptyString => True
  | String c s' => c ≠ a ∧ free_of a s'
  end.

(** The cells of [self.cells] are named [cell_1], [cell_2], ... in
    order. *)
Definition default_named (s : Analyzer) : Prop :=
  ∀ (i r : nat), cells s !! i = Some r →
    cell_id <$> store s !! r
    = Some (Some ("cell_" +:+ str (Z.of_nat i + 1))).

Section AnalysisVocabulary.
Context `{Np.Release}.

(** A cell after its brightness has been computed, when it can be. *)
Definition analyzed (img : IntensityGrid) (method : string) (c : Cell)
  : Cell :=
  match reduce (cell_region img c) method with
  | Ok b => with_brightness b c
  | Raise _ => c
  end.

(** The store after the brightness of the cells [l] has been computed,
    one after the other. *)
Definition analyzed_store (img : IntensityGrid) (method : string)
    (l : list nat) (st : list Cell) : list Cell :=
  fold_left (λ st r, alter (analyzed img method) r st) l st.

(** The frame that one image yields under a grid partition. *)
Definition grid_frame (gp : GridParams) (image_file : string * IntensityGrid)
  : list (ResultRecord * string) :=
  let '(name, img) := image_file in
  let cw := (snd (shape img) - 2 * gp_margin gp
             - (gp_cols gp - 1) * gp_spacing gp) / gp_cols gp in
  let ch := (fst (shape img) - 2 * gp_margin gp
             - (gp_rows gp - 1) * gp_spacing gp) / gp_rows gp in
  map (λ c, (to_dict (analyzed img "mean" c), name))
      (grid_cells (gp_margin gp) (gp_spacing gp) cw ch
                  (gp_rows gp) (gp_cols gp)).

End AnalysisVocabulary.

(** ** Sessions to run the methods on *)

(** A release of the array library whose percentile of nothing is NaN. *)
Definition release_nan : Np.Release :=
  {| Np.percentile_of_empty := Ok NaN |}.

(** A stand-in for the image-processing library that reports the given
    contours, each a bounding box with an area, whatever the image. *)
Definition stub_cv (found : list (Z * Z * Z * Z * Q)) : OpenCV :=
  {| Contour := Z * Z * Z * Z * Q;
     threshold := λ img thresh maxval _,
       (inject_Z thresh,
        map (map (λ v, if thresh <? v then maxval else 0)) img);
     adaptiveThreshold := λ img _ _ _ _ _, img;
     findContours := λ _ _ _, found;
     contourArea := snd;
     boundingRect := fst |}.

(** A one-row image with one cell over all of it. *)
Definition strip : Analyzer :=
  mkAnalyzer [Cell_init 0 0 3 1 (Some "cell_1")] (Some [[0; 10; 10]])
             [0%nat] [].

(** A one-pixel image. *)
Definition dot : Analyzer := mkAnalyzer [] (Some [[7]]) [] [].

(** [dot] after [add_cells_grid(1, 2)]: two cells of width zero. *)
Definition sliver : Analyzer :=
  mkAnalyzer [Cell_init 0 0 0 1 (Some "cell_r1_c1");
              Cell_init 0 0 0 1 (Some "cell_r1_c2")]
             (Some [[7]]) [0%nat; 1%nat] [].

(** A two-by-three image. *)
Definition plate : Analyzer :=
  mkAnalyzer [] (Some [[0; 10; 10]; [1; 2; 3]]) [] [].

(** [plate] after [add_cells_grid(2, 3)]: six cells of one pixel. *)
Definition plate_cells : Analyzer :=
  Eval vm_compute in snd (add_cells_grid 2 3 0 0 plate).

(** A region that starts one column left of a one-by-three image. *)
Definition overhang : Cell := Cell_init (-1) 0 5 1 None.

Definition overhang_session : Analyzer :=
  mkAnalyzer [overhang] (Some [[10; 20; 30]]) [0%nat] [].

(** A region that ends one column right of a one-by-three image. *)
Definition spill : Cell := Cell_init 1 0 3 1 None.

Definition spill_session : Analyzer :=
  mkAnalyzer [spill] (Some [[10; 20; 30]]) [0%nat] [].

(** Three contours, the second of them small. *)
Definition three_blobs : list (Z * Z * Z * Z * Q) :=
  [(2, 3, 20, 10, 200%Q); (40, 3, 5, 5, 50%Q); (2, 30, 30, 10, 300%Q)].

(** [strip] after [analyze_all_cells("mean")], and the records of that
    call. *)
Definition strip_analyzed : Analyzer :=
  Eval vm_compute in snd (@analyze_all_cells release_nan "mean" strip).

Definition strip_records : list ResultRecord :=
  Eval vm_compute in
    match fst (@analyze_all_cells release_nan "mean" strip) with
    | Ok records => records
    | Raise _ => []
    end.

(** [dot] after the detection of [three_blobs] with the default minimal
    area. *)
Definition blobs_detected : Analyzer :=
  Eval vm_compute in
    snd (@detect_cells_automatically (stub_cv three_blobs) 100 "otsu" dot).

(** File and plotting libraries that write to a folder [out] and raise
    on no call. *)
Definition quiet_export : Export :=
  {| result_file := λ name, "out/" +:+ name +:+ "_results.csv";
     viz_file := λ name, "out/" +:+ name +:+ "_visualization.png";
     combined_file := "out/combined_results.csv";
     to_csv := λ _ _, Ok tt;
     draw := λ _ _ _ _ _, Ok tt |}.

(** Two image files. *)
Definition two_files : list (string * IntensityGrid) :=
  [("a.png", [[1; 2]; [3; 4]]); ("b.png", [[5; 6]])].

(** A fresh analyzer after [add_cell_manual(0, 0, 1, 1)]: a cell, no
    image. *)
Definition unloaded : Analyzer :=
  mkAnalyzer [Cell_init 0 0 1 1 (Some "cell_1")] None [0%nat] [].

(** The two cells of width zero of [sliver], with one record left by an
    earlier analysis. *)
Definition stale : Analyzer :=
  mkAnalyzer [Cell_init 0 0 0 1 (Some "cell_r1_c1");
              Cell_init 0 0 0 1 (Some "cell_r1_c2")]
             (Some [[7]]) [0%nat; 1%nat]
             [mkRecord (Some "cell_r1_c1") 0 0 0 1 NaN].

(** ** The image library on one filled rectangle *)











(** * Properties *)

(** ** Loops that allocate cells *)

Lemma allocated_nil track s : allocated track [] s = s.
Proof.
  destruct s as [st im cs rs], track; unfold allocated; simpl;
    rewrite ?app_nil_r; reflexivity.
Qed.

Lemma allocated_app track new1 new2 s :
  allocated track new2 (allocated track new1 s)
  = allocated track (new1 ++ new2) s.
Proof.
  destruct s as [st im cs rs]; unfold allocated; simpl.
  destruct track; rewrite ?length_app, ?seq_app, <- ?app_assoc; reflexivity.
Qed.

Lemma foldM_allocates {A} track (f : list ref → A → M (list ref)) mk :
  allocates track f mk →
  allocates track (foldM f) (flat_map mk).
Proof.
  intros Hf acc l. revert acc.
  induction l as [|a l IH]; intros acc s; simpl.
  - rewrite allocated_nil, app_nil_r. reflexivity.
  - unfold mbind, M_bind. rewrite Hf, IH, allocated_app.
    rewrite length_app, seq_app, <- app_assoc. simpl.
    rewrite length_app. reflexivity.
Qed.

Lemma lookup_flat_map_block {A B} (f : A → list B) (n : nat) (l : list A)
    (i j : nat) (a : A) :
  (∀ a', length (f a') = n) →
  (j < n)%nat →
  l !! i = Some a →
  flat_map f l !! (i * n + j)%nat = f a !! j.
Proof.
  intros Hlen Hj. revert i.
  induction l as [|a0 l IH]; intros i Hi; [discriminate|].
  destruct i as [|i]; simpl in *.
  - injection Hi as ->. apply lookup_app_l. rewrite Hlen. exact Hj.
  - rewrite lookup_app_r by (rewrite Hlen; lia).
    rewrite Hlen. replace (n + i * n + j - n)%nat with (i * n + j)%nat by lia.
    apply IH, Hi.
Qed.

Lemma range_length n : length (range n) = Z.to_nat n.
Proof. unfold range. rewrite length_map, length_seq. reflexivity. Qed.

Lemma range_lookup n (i : nat) :
  (i < Z.to_nat n)%nat → range n !! i = Some (Z.of_nat i).
Proof.
  intros Hi. unfold range. rewrite list_lookup_fmap, lookup_seq_lt by exact Hi.
  reflexivity.
Qed.

(** ** The grid partition *)

Lemma grid_step_allocates margin spacing cw ch row :
  allocates true (grid_step margin spacing cw ch row)
            (λ col, [grid_cell margin spacing cw ch row col]).
Proof. intros acc col s. reflexivity. Qed.

Lemma grid_row_length margin spacing cw ch cols row :
  length (grid_row margin spacing cw ch cols row) = Z.to_nat cols.
Proof.
  unfold grid_row.
  rewrite (flat_map_constant_length (c := 1%nat)) by reflexivity.
  rewrite range_length. lia.
Qed.

Lemma grid_cells_length margin spacing cw ch rows cols :
  length (grid_cells margin spacing cw ch rows cols)
  = (Z.to_nat rows * Z.to_nat cols)%nat.
Proof.
  unfold grid_cells.
  rewrite (flat_map_constant_length (c := Z.to_nat cols)).
  - rewrite range_length. reflexivity.
  - intros row _. apply grid_row_length.
Qed.

Lemma grid_cells_lookup margin spacing cw ch rows cols (row col : nat) :
  (row < Z.to_nat rows)%nat →
  (col < Z.to_nat cols)%nat →
  grid_cells margin spacing cw ch rows cols !! (row * Z.to_nat cols + col)%nat
  = Some (grid_cell margin spacing cw ch (Z.of_nat row) (Z.of_nat col)).
Proof.
  intros Hrow Hcol. unfold grid_cells.
  rewrite (lookup_flat_map_block _ (Z.to_nat cols) _ row col (Z.of_nat row)).
  - unfold grid_row.
    replace col with (col * 1 + 0)%nat at 1 by lia.
    rewrite (lookup_flat_map_block _ 1%nat _ col 0%nat (Z.of_nat col));
      [reflexivity | reflexivity | lia | apply range_lookup, Hcol].
  - intros row'. apply grid_row_length.
  - exact Hcol.
  - apply range_lookup, Hrow.
Qed.

Lemma grid_row_allocates margin spacing cw ch cols :
  allocates true
    (λ cells row, foldM (grid_step margin spacing cw ch row) cells (range cols))
    (grid_row margin spacing cw ch cols).
Proof.
  intros acc row s.
  apply (foldM_allocates true _ _ (grid_step_allocates margin spacing cw ch row)).
Qed.

(** What a call of [add_cells_grid] does once the guard and the two
    divisions have passed. *)
Lemma add_cells_grid_run s img rows cols margin spacing :
  image s = Some img →
  rows ≠ 0 → cols ≠ 0 →
  let cw := (snd (shape img) - 2 * margin - (cols - 1) * spacing) / cols in
  let ch := (fst (shape img) - 2 * margin - (rows - 1) * spacing) / rows in
  let new := grid_cells margin spacing cw ch rows cols in
  add_cells_grid rows cols margin spacing s
  = (Ok (seq (length (store s)) (length new)), allocated true new s).
Proof.
  intros Himg Hrows Hcols cw ch new.
  unfold add_cells_grid, mbind, M_bind, loaded_image at 1. rewrite Himg.
  unfold shape, floordiv. simpl.
  destruct (Z.eqb_spec cols 0) as [|_]; [contradiction|].
  destruct (Z.eqb_spec rows 0) as [|_]; [contradiction|].
  unfold mret, M_ret.
  apply (foldM_allocates true _ _ (grid_row_allocates margin spacing cw ch cols)).
Qed.

Lemma grid_cell_disjoint margin spacing cw ch row1 col1 row2 col2 :
  0 ≤ spacing →
  row1 ≠ row2 ∨ col1 ≠ col2 →
  ¬ overlap (grid_cell margin spacing cw ch row1 col1)
            (grid_cell margin spacing cw ch row2 col2).
Proof.
  intros Hsp Hne (px & py & [Hx1 Hy1] & [Hx2 Hy2]). simpl in *.
  destruct Hne as [Hne | Hne].
  - destruct (Z.lt_total row1 row2) as [Hlt | [Heq | Hlt]];
      [ | contradiction | ].
    + assert (0 ≤ (row2 - row1 - 1) * (ch + spacing)) by nia. nia.
    + assert (0 ≤ (row1 - row2 - 1) * (ch + spacing)) by nia. nia.
  - destruct (Z.lt_total col1 col2) as [Hlt | [Heq | Hlt]];
      [ | contradiction | ].
    + assert (0 ≤ (col2 - col1 - 1) * (cw + spacing)) by nia. nia.
    + assert (0 ≤ (col1 - col2 - 1) * (cw + spacing)) by nia. nia.
Qed.

(** The [i]-th of the references handed out by an allocation denotes the
    [i]-th new cell. *)
Lemma allocated_lookup track new s (i : nat) (r : ref) :
  seq (length (store s)) (length new) !! i = Some r →
  store (allocated track new s) !! r = new !! i.
Proof.
  intros [-> Hi]%lookup_seq. simpl.
  rewrite lookup_app_r by lia. f_equal. lia.
Qed.

(** Every index below [rows * cols] is [row * cols + col] for one
    position [(row, col)] of the grid. *)
Lemma grid_index (rows cols i : nat) :
  (i < rows * cols)%nat →
  ∃ row col, (row < rows)%nat ∧ (col < cols)%nat ∧ i = (row * cols + col)%nat.
Proof.
  intros Hi. assert (cols ≠ 0)%nat by lia.
  exists (i / cols)%nat, (i mod cols)%nat. repeat split.
  - apply Nat.Div0.div_lt_upper_bound. lia.
  - apply Nat.mod_upper_bound. assumption.
  - rewrite (Nat.div_mod_eq i cols) at 1. lia.
Qed.

(** C2.  With an image loaded, [rows >= 1], [cols >= 1], [margin >= 0]
    and [spacing >= 0], [add_cells_grid] returns exactly [rows * cols]
    new cells, which it also appends to [self.cells].  All have the width
    [(img_width - 2*margin - (cols-1)*spacing) // cols] and the height
    [(img_height - 2*margin - (rows-1)*spacing) // rows]; the cell at
    row-major position [row * cols + col] sits at
    [x = margin + col * (cell_width + spacing)],
    [y = margin + row * (cell_height + spacing)] and is named
    [cell_r{row+1}_c{col+1}]; no two of the cells share a pixel. *)
Theorem add_cells_grid_partition s img rows cols margin spacing :
  image s = Some img →
  1 ≤ rows → 1 ≤ cols → 0 ≤ margin → 0 ≤ spacing →
  let cell_width :=
    (snd (shape img) - 2 * margin - (cols - 1) * spacing) / cols in
  let cell_height :=
    (fst (shape img) - 2 * margin - (rows - 1) * spacing) / rows in
  ∃ refs s',
    add_cells_grid rows cols margin spacing s = (Ok refs, s')
    ∧ Z.of_nat (length refs) = rows * cols
    ∧ cells s' = cells s ++ refs
    ∧ (∀ r, r ∈ refs → ∃ c,
         store s' !! r = Some c
         ∧ width c = cell_width ∧ height c = cell_height)
    ∧ (∀ row col : nat, Z.of_nat row < rows → Z.of_nat col < cols →
         ∃ r, refs !! (row * Z.to_nat cols + col)%nat = Some r
           ∧ store s' !! r = Some
               {| x := margin + Z.of_nat col * (cell_width + spacing);
                  y := margin + Z.of_nat row * (cell_height + spacing);
                  width := cell_width;
                  height := cell_height;
                  brightness := Fin 0;
                  cell_id := Some ("cell_r" +:+ str (Z.of_nat row + 1)
                                   +:+ "_c" +:+ str (Z.of_nat col + 1)) |})
    ∧ (∀ (i j : nat) ri rj ci cj, i ≠ j →
         refs !! i = Some ri → refs !! j = Some rj →
         store s' !! ri = Some ci → store s' !! rj = Some cj →
         ¬ overlap ci cj).
Proof.
  intros Himg Hrows Hcols Hmargin Hspacing cw ch.
  set (new := grid_cells margin spacing cw ch rows cols).
  assert (Hlen : length new = (Z.to_nat rows * Z.to_nat cols)%nat)
    by apply grid_cells_length.
  assert (Hat : ∀ (i : nat) r c,
    seq (length (store s)) (length new) !! i = Some r →
    store (allocated true new s) !! r = Some c →
    ∃ row col : nat, (row < Z.to_nat rows)%nat ∧ (col < Z.to_nat cols)%nat
      ∧ i = (row * Z.to_nat cols + col)%nat
      ∧ c = grid_cell margin spacing cw ch (Z.of_nat row) (Z.of_nat col)).
  { intros i r c Hi Hc.
    rewrite (allocated_lookup _ _ _ _ _ Hi) in Hc.
    apply lookup_seq in Hi as [_ Hi]. rewrite Hlen in Hi.
    destruct (grid_index _ _ _ Hi) as (row & col & Hrow & Hcol & ->).
    exists row, col. repeat split; try assumption.
    unfold new in Hc. rewrite grid_cells_lookup in Hc by assumption.
    congruence. }
  exists (seq (length (store s)) (length new)), (allocated true new s).
  split; [apply add_cells_grid_run; [assumption | lia | lia] |].
  split; [rewrite length_seq, Hlen; lia |].
  split; [reflexivity |].
  split; [| split].
  - intros r [i Hi]%list_elem_of_lookup.
    assert (Hnew : is_Some (new !! i)).
    { apply lookup_lt_is_Some. apply lookup_seq in Hi. lia. }
    destruct Hnew as [c Hc]. exists c.
    assert (Hst : store (allocated true new s) !! r = Some c)
      by (rewrite (allocated_lookup _ _ _ _ _ Hi); exact Hc).
    destruct (Hat i r c Hi Hst) as (row & col & _ & _ & _ & ->).
    split; [exact Hst | split; reflexivity].
  - intros row col Hrow Hcol.
    assert (Hi : (row * Z.to_nat cols + col < length new)%nat)
      by (rewrite Hlen; nia).
    exists (length (store s) + (row * Z.to_nat cols + col))%nat.
    assert (Href : seq (length (store s)) (length new)
                     !! (row * Z.to_nat cols + col)%nat
                   = Some (length (store s) + (row * Z.to_nat cols + col))%nat)
      by (apply lookup_seq_lt, Hi).
    split; [exact Href |].
    rewrite (allocated_lookup _ _ _ _ _ Href). unfold new.
    rewrite grid_cells_lookup by lia. reflexivity.
  - intros i j ri rj ci cj Hij Hri Hrj Hci Hcj.
    destruct (Hat i ri ci Hri Hci) as (row1 & col1 & _ & Hc1 & -> & ->).
    destruct (Hat j rj cj Hrj Hcj) as (row2 & col2 & _ & Hc2 & -> & ->).
    apply grid_cell_disjoint; [assumption |].
    destruct (decide (row1 = row2)) as [-> | Hne]; [right | left]; lia.
Qed.

(** ** Automatic detection *)

Section DetectionProperties.
Context `{OpenCV}.

Lemma detect_step_allocates min_area :
  allocates false (detect_step min_area)
            (λ ic, if keeps min_area ic then [detected_cell ic] else []).
Proof.
  intros acc [i contour] s. unfold detect_step, keeps, detected_cell. simpl.
  destruct (Qle_bool (inject_Z min_area) (contourArea contour)).
  - destruct (boundingRect contour) as [[[bx by_] bw] bh]. reflexivity.
  - unfold mret, M_ret. rewrite allocated_nil, app_nil_r. reflexivity.
Qed.

Lemma flat_map_keep {A B} (p : A → bool) (f : A → B) (l : list A) :
  flat_map (λ a, if p a then [f a] else []) l = map f (List.filter p l).
Proof.
  induction l as [|a l IH]; simpl; [reflexivity|].
  destruct (p a); simpl; rewrite IH; reflexivity.
Qed.

(** What a call of [detect_cells_automatically] does on a loaded image. *)
Lemma detect_run s img min_area threshold_method :
  image s = Some img →
  let contours := findContours (binarize img threshold_method)
                               RETR_EXTERNAL CHAIN_APPROX_SIMPLE in
  let kept := map detected_cell
                  (List.filter (keeps min_area) (enumerate contours)) in
  let refs := seq (length (store s)) (length kept) in
  detect_cells_automatically min_area threshold_method s
  = (Ok refs, mkAnalyzer (store s ++ kept) (image s) refs (results s)).
Proof.
  intros Himg contours kept refs.
  unfold detect_cells_automatically, mbind, M_bind, loaded_image at 1.
  rewrite Himg.
  rewrite (foldM_allocates false _ _ (detect_step_allocates min_area)).
  rewrite flat_map_keep.
  destruct s as [st im cs rs]. simpl in *. subst im. reflexivity.
Qed.

Lemma detect_no_image s min_area threshold_method :
  image s = None →
  detect_cells_automatically min_area threshold_method s = (Raise no_image, s).
Proof.
  intros Himg.
  unfold detect_cells_automatically, mbind, M_bind, loaded_image at 1.
  rewrite Himg. reflexivity.
Qed.

Lemma enumerate_elem {A} (l : list A) (i : nat) (a : A) :
  (i, a) ∈ enumerate l ↔ l !! i = Some a.
Proof.
  unfold enumerate. rewrite list_elem_of_lookup. split.
  - intros [k [Hk Ha]%lookup_zip_Some].
    apply lookup_seq in Hk as [-> _]. exact Ha.
  - intros Ha. exists i. apply lookup_zip_Some. split; [| exact Ha].
    apply lookup_seq_lt. eapply lookup_lt_Some, Ha.
Qed.



End DetectionProperties.

(** ** The brightness reducer *)

Section ReducerProperties.
Context `{Np.Release}.

Lemma calculate_brightness_no_image s cell method :
  image s = None → calculate_brightness cell method s = (Raise no_image, s).
Proof.
  intros Himg. unfold calculate_brightness, mbind, M_bind, loaded_image.
  rewrite Himg. reflexivity.
Qed.

(** One call of [calculate_brightness] on a loaded image: the outcome is
    that of the reduction, and only a successful reduction writes. *)
Lemma calculate_brightness_run s img cell method :
  image s = Some img →
  calculate_brightness cell method s
  = match reduce (cell_region img (store s !!! cell)) method with
    | Ok b => (Ok b, mkAnalyzer (alter (with_brightness b) cell (store s))
                                (image s) (cells s) (results s))
    | Raise e => (Raise e, s)
    end.
Proof.
  intros Himg. unfold calculate_brightness, mbind, M_bind, loaded_image.
  rewrite Himg. unfold deref, lift.
  destruct s as [st im cs rs]. simpl in *. subst im.
  destruct (reduce _ method); reflexivity.
Qed.

Lemma reduce_unknown g method :
  ¬ recognized method →
  reduce g method = Raise (ValueError ("Unknown method: " +:+ method)).
Proof.
  intros Hun. unfold reduce.
  destruct (String.eqb_spec method "mean") as [-> | _];
    [exfalso; apply Hun; left; reflexivity |].
  destruct (String.eqb_spec method "median") as [-> | _];
    [exfalso; apply Hun; right; left; reflexivity |].
  destruct (String.eqb_spec method "max") as [-> | _];
    [exfalso; apply Hun; right; right; left; reflexivity |].
  destruct (String.eqb_spec method "percentile") as [-> | _];
    [exfalso; apply Hun; right; right; right; reflexivity |].
  reflexivity.
Qed.

Lemma reduce_recognized g method :
  recognized method →
  Np.ravel g ≠ [] ∨ method = "mean" ∨ method = "median" →
  is_ok (reduce g method).
Proof.
  intros Hrec Hcase. unfold reduce.
  destruct Hrec as [-> | [-> | [-> | ->]]]; simpl; try exact I.
  - destruct Hcase as [Hne | [Heq | Heq]]; try discriminate.
    destruct (Np.ravel g); [contradiction | exact I].
  - destruct Hcase as [Hne | [Heq | Heq]]; try discriminate.
    unfold Np.percentile.
    destruct (Np.ravel g); [contradiction | exact I].
Qed.

Lemma reduce_max_empty g :
  Np.ravel g = [] → reduce g "max" = Raise zero_size.
Proof. intros Hg. unfold reduce. simpl. rewrite Hg. reflexivity. Qed.

(** C4 (amended).  On a loaded image, an unrecognized method token makes
    [calculate_brightness] raise the "Unknown method" [ValueError] and
    write nothing.  For a recognized token whose reduction is defined on
    the extracted region (any token on a non-empty region; ["mean"] and
    ["median"] on an empty one too) it stores a value in the [brightness]
    field of the very cell object it was given, touches nothing else, and
    returns the value it stored.  ["max"] on an empty extracted region
    raises the array library's [ValueError] and writes nothing. *)
Theorem calculate_brightness_contract s img cell c method :
  image s = Some img →
  store s !! cell = Some c →
  (¬ recognized method →
     calculate_brightness cell method s
     = (Raise (ValueError ("Unknown method: " +:+ method)), s))
  ∧ (recognized method →
     Np.ravel (cell_region img c) ≠ [] ∨ method = "mean" ∨ method = "median" →
     ∃ b s',
       calculate_brightness cell method s = (Ok b, s')
       ∧ store s' !! cell = Some (with_brightness b c)
       ∧ (∀ r, r ≠ cell → store s' !! r = store s !! r)
       ∧ image s' = image s ∧ cells s' = cells s ∧ results s' = results s)
  ∧ (Np.ravel (cell_region img c) = [] →
     calculate_brightness cell "max" s = (Raise zero_size, s)).
Proof.
  intros Himg Hc.
  pose proof (list_lookup_total_correct _ _ _ Hc) as Hc'.
  split; [| split].
  - intros Hun. rewrite (calculate_brightness_run _ _ _ _ Himg). rewrite Hc'.
    rewrite reduce_unknown by exact Hun. reflexivity.
  - intros Hrec Hcase.
    pose proof (reduce_recognized (cell_region img c) method Hrec Hcase) as Hok.
    rewrite (calculate_brightness_run _ _ _ _ Himg), Hc'.
    destruct (reduce (cell_region img c) method) as [b | e];
      [| contradiction].
    eexists b, _. split; [reflexivity |]. simpl.
    split; [rewrite list_lookup_alter_eq, Hc; reflexivity |].
    split; [intros r Hr; apply list_lookup_alter_ne; congruence |].
    repeat split.
  - intros Hempty. rewrite (calculate_brightness_run _ _ _ _ Himg), Hc'.
    rewrite reduce_max_empty by exact Hempty. reflexivity.
Qed.

End ReducerProperties.

(** ** Analysis of all cells *)

Lemma with_brightness_same c : with_brightness (brightness c) c = c.
Proof. destruct c; reflexivity. Qed.

Lemma same_geometry_refl st : same_geometry st st.
Proof.
  apply Forall2_same_length_lookup_2; [reflexivity |].
  intros i c c' Hc Hc'. exists (brightness c).
  rewrite with_brightness_same. congruence.
Qed.

Lemma same_geometry_alter st st' r b :
  same_geometry st st' →
  same_geometry st (alter (with_brightness b) r st').
Proof.
  intros Hgeo.
  apply Forall2_same_length_lookup_2.
  - rewrite length_alter. eapply Forall2_length, Hgeo.
  - intros i c c' Hc Hc'.
    destruct (decide (r = i)) as [-> | Hne].
    + rewrite list_lookup_alter_eq in Hc'.
      destruct (st' !! i) as [c0 |] eqn:Hc0; [| discriminate].
      injection Hc' as <-.
      destruct (Forall2_lookup_lr _ _ _ _ _ _ Hgeo Hc Hc0) as [b0 ->].
      exists b. reflexivity.
    + rewrite list_lookup_alter_ne in Hc' by exact Hne.
      exact (Forall2_lookup_lr _ _ _ _ _ _ Hgeo Hc Hc').
Qed.

Lemma same_geometry_lookup st st' (r : nat) c :
  same_geometry st st' →
  st !! r = Some c →
  ∃ b, st' !! r = Some (with_brightness b c).
Proof.
  intros Hgeo Hc.
  destruct (Forall2_lookup_l _ _ _ _ _ Hgeo Hc) as (c' & Hc' & b & ->).
  exists b. exact Hc'.
Qed.

Lemma same_geometry_trans st1 st2 st3 :
  same_geometry st1 st2 → same_geometry st2 st3 → same_geometry st1 st3.
Proof.
  intros H12 H23.
  apply Forall2_same_length_lookup_2.
  - rewrite (Forall2_length _ _ _ H12). eapply Forall2_length, H23.
  - intros i c1 c3 Hc1 Hc3.
    destruct (same_geometry_lookup _ _ _ _ H12 Hc1) as [b2 Hc2].
    destruct (same_geometry_lookup _ _ _ _ H23 Hc2) as [b3 Hc3'].
    exists b3. rewrite Hc3 in Hc3'. injection Hc3' as ->. reflexivity.
Qed.

Section AnalysisProperties.
Context `{Np.Release}.

(** The extracted region does not depend on the brightness field. *)
Lemma cell_region_with_brightness img b c :
  cell_region img (with_brightness b c) = cell_region img c.
Proof. reflexivity. Qed.

(** Whatever its outcome, a call of [calculate_brightness] leaves the
    state alone or writes one brightness field. *)
Lemma calculate_brightness_frame cell method s :
  let s' := snd (calculate_brightness cell method s) in
  image s' = image s ∧ cells s' = cells s ∧ results s' = results s
  ∧ same_geometry (store s) (store s').
Proof.
  destruct (image s) as [img |] eqn:Himg.
  - rewrite (calculate_brightness_run _ _ _ _ Himg).
    destruct (reduce _ method) as [b | e]; simpl.
    + repeat split; try assumption.
      apply same_geometry_alter, same_geometry_refl.
    + repeat split; try assumption. apply same_geometry_refl.
  - rewrite (calculate_brightness_no_image _ _ _ Himg). simpl.
    repeat split; try assumption. apply same_geometry_refl.
Qed.

Lemma analyze_step_frame method acc cell s :
  let s' := snd (analyze_step method acc cell s) in
  image s' = image s ∧ cells s' = cells s ∧ results s' = results s
  ∧ same_geometry (store s) (store s').
Proof.
  pose proof (calculate_brightness_frame cell method s) as Hframe.
  unfold analyze_step, mbind, M_bind.
  destruct (calculate_brightness cell method s) as [[b | e] s1];
    exact Hframe.
Qed.

Lemma analyze_loop_frame method l acc s :
  let s' := snd (foldM (analyze_step method) acc l s) in
  image s' = image s ∧ cells s' = cells s ∧ results s' = results s
  ∧ same_geometry (store s) (store s').
Proof.
  revert acc s. induction l as [|cell l IH]; intros acc s; simpl.
  - repeat split. apply same_geometry_refl.
  - pose proof (analyze_step_frame method acc cell s) as Hstep.
    unfold mbind, M_bind.
    destruct (analyze_step method acc cell s) as [[acc' | e] s1];
      simpl in Hstep; [| exact Hstep].
    destruct Hstep as (Him & Hcs & Hrs & Hgeo).
    destruct (IH acc' s1) as (Him' & Hcs' & Hrs' & Hgeo').
    repeat split; try congruence.
    eapply same_geometry_trans; eassumption.
Qed.

(** [analyze_all_cells], with its loop kept as one computation. *)
Lemma analyze_all_cells_unfold method s :
  analyze_all_cells method s
  = match cells s with
    | [] => (Raise no_cells, s)
    | _ =>
      match foldM (analyze_step method) [] (cells s) s with
      | (Ok recs, s1) =>
          (Ok recs, mkAnalyzer (store s1) (image s1) (cells s1) recs)
      | (Raise e, s1) => (Raise e, s1)
      end
    end.
Proof.
  unfold analyze_all_cells, mbind at 1, M_bind at 1, get.
  destruct (cells s) as [| cell l]; [reflexivity |].
  unfold mbind at 1, M_bind at 1.
  destruct (foldM (analyze_step method) [] (cell :: l) s) as [[recs | e] s1];
    reflexivity.
Qed.

(** C10.  Whatever its outcome, [analyze_all_cells] leaves the image and
    the sequence [self.cells] (its length and order) as they were, and
    every cell object keeps its [x], [y], [width], [height] and
    [cell_id]: a cell after the call is the cell before it with, at most,
    another brightness. *)
Theorem analyze_all_cells_frame method s :
  let s' := snd (analyze_all_cells method s) in
  image s' = image s
  ∧ cells s' = cells s
  ∧ length (store s') = length (store s)
  ∧ (∀ (r : nat) c, store s !! r = Some c →
       ∃ c', store s' !! r = Some c'
         ∧ x c' = x c ∧ y c' = y c
         ∧ width c' = width c ∧ height c' = height c
         ∧ cell_id c' = cell_id c).
Proof.
  assert (Hframe : let s' := snd (analyze_all_cells method s) in
            image s' = image s ∧ cells s' = cells s
            ∧ same_geometry (store s) (store s')).
  { rewrite analyze_all_cells_unfold.
    pose proof (analyze_loop_frame method (cells s) [] s) as Hloop.
    destruct (cells s) as [| cell l] eqn:Hcells.
    - simpl. repeat split; [exact Hcells | apply same_geometry_refl].
    - rewrite <- Hcells in *.
      destruct (foldM (analyze_step method) [] (cells s) s)
        as [[recs | e] s1]; simpl in *;
        destruct Hloop as (Him & Hcs & _ & Hgeo); repeat split;
        assumption. }
  destruct Hframe as (Him & Hcs & Hgeo).
  split; [exact Him |]. split; [exact Hcs |].
  split; [symmetry; eapply Forall2_length, Hgeo |].
  intros r c Hc.
  destruct (same_geometry_lookup _ _ _ _ Hgeo Hc) as [b Hc'].
  exists (with_brightness b c). split; [exact Hc' |]. repeat split.
Qed.

Lemma analyze_step_ok img method st0 acc (cell : nat) c s :
  image s = Some img →
  same_geometry st0 (store s) →
  st0 !! cell = Some c →
  is_ok (reduce (cell_region img c) method) →
  ∃ s', analyze_step method acc cell s
        = (Ok (acc ++ [record_of img method c]), s')
      ∧ image s' = image s ∧ cells s' = cells s ∧ results s' = results s
      ∧ same_geometry st0 (store s').
Proof.
  intros Himg Hgeo Hc Hok.
  destruct (same_geometry_lookup _ _ _ _ Hgeo Hc) as [b0 Hc0].
  pose proof (list_lookup_total_correct _ _ _ Hc0) as Hc0'.
  unfold analyze_step, mbind, M_bind.
  rewrite (calculate_brightness_run _ _ _ _ Himg), Hc0'.
  rewrite cell_region_with_brightness. unfold record_of.
  destruct (reduce (cell_region img c) method) as [b | e]; [| contradiction].
  eexists. split.
  - unfold deref, mret, M_ret. simpl. do 3 f_equal.
    rewrite list_lookup_total_alter_eq by (eapply lookup_lt_Some, Hc0).
    rewrite Hc0'. reflexivity.
  - simpl. repeat split. apply same_geometry_alter, Hgeo.
Qed.

Lemma analyze_loop_ok img method st0 l acc s :
  image s = Some img →
  same_geometry st0 (store s) →
  reducible img method st0 l →
  ∃ s', foldM (analyze_step method) acc l s
        = (Ok (acc ++ omap (λ r, record_of img method <$> st0 !! r) l), s')
      ∧ image s' = image s ∧ cells s' = cells s ∧ results s' = results s
      ∧ same_geometry st0 (store s').
Proof.
  intros Himg Hgeo Hred. revert acc s Himg Hgeo.
  induction Hred as [| cell l (c & Hc & Hok) _ IH]; intros acc s Himg Hgeo.
  - exists s. simpl. rewrite app_nil_r. repeat split. exact Hgeo.
  - destruct (analyze_step_ok img method st0 acc cell c s Himg Hgeo Hc Hok)
      as (s1 & Hstep & Him1 & Hcs1 & Hrs1 & Hgeo1).
    destruct (IH (acc ++ [record_of img method c]) s1) as
      (s' & Hloop & Him' & Hcs' & Hrs' & Hgeo'); [congruence | exact Hgeo1 |].
    exists s'. simpl. unfold mbind, M_bind. rewrite Hstep, Hloop, Hc. simpl.
    rewrite <- app_assoc. repeat split; congruence.
Qed.

Lemma records_length img method st l :
  reducible img method st l →
  length (omap (λ r, record_of img method <$> st !! r) l) = length l.
Proof.
  induction 1 as [| r l (c & Hc & _) _ IH]; simpl; [reflexivity |].
  rewrite Hc. simpl. f_equal. exact IH.
Qed.

Lemma records_lookup img method st l (i r : nat) :
  reducible img method st l →
  l !! i = Some r →
  ∃ c b, st !! r = Some c
    ∧ reduce (cell_region img c) method = Ok b
    ∧ omap (λ r, record_of img method <$> st !! r) l !! i
      = Some (to_dict (with_brightness b c)).
Proof.
  intros Hred. revert i.
  induction Hred as [| r0 l (c & Hc & Hok) _ IH]; intros i Hi;
    [discriminate |].
  simpl. rewrite Hc. simpl.
  destruct i as [| i]; simpl in *.
  - injection Hi as <-. exists c. unfold record_of.
    destruct (reduce (cell_region img c) method) as [b | e];
      [| contradiction].
    exists b. repeat split. exact Hc.
  - apply IH, Hi.
Qed.

Lemma foldM_app {A B} (f : B → A → M B) (acc : B) (l1 l2 : list A) s :
  foldM f acc (l1 ++ l2) s
  = match foldM f acc l1 s with
    | (Ok acc', s') => foldM f acc' l2 s'
    | (Raise e, s') => (Raise e, s')
    end.
Proof.
  revert acc s. induction l1 as [| a l1 IH]; intros acc s; simpl;
    [reflexivity |].
  unfold mbind, M_bind.
  destruct (f acc a s) as [[acc' | e] s1]; [apply IH | reflexivity].
Qed.

(** The loop stops at the first cell on which the reduction raises. *)
Lemma analyze_loop_raise img method pre (r : nat) post c e s :
  image s = Some img →
  reducible img method (store s) pre →
  store s !! r = Some c →
  reduce (cell_region img c) method = Raise e →
  ∃ s', foldM (analyze_step method) [] (pre ++ r :: post) s = (Raise e, s')
      ∧ results s' = results s.
Proof.
  intros Himg Hpre Hc He.
  destruct (analyze_loop_ok img method (store s) pre [] s Himg
              (same_geometry_refl _) Hpre)
    as (s1 & Hloop & Him1 & _ & Hrs1 & Hgeo1).
  destruct (same_geometry_lookup _ _ _ _ Hgeo1 Hc) as [b0 Hc1].
  exists s1. rewrite foldM_app, Hloop. simpl.
  unfold mbind, M_bind, analyze_step at 1, mbind, M_bind.
  rewrite (calculate_brightness_run s1 img) by congruence.
  rewrite (list_lookup_total_correct _ _ _ Hc1), cell_region_with_brightness.
  rewrite He. split; [reflexivity | exact Hrs1].
Qed.

(** C5 (amended).  On an empty [self.cells], [analyze_all_cells] raises
    the "No cells defined" [ValueError] and changes nothing.  On a
    non-empty one it runs the reduction on the cells in the order of
    [self.cells].  When an image is loaded and the reduction is defined
    on every cell, it returns one record per cell in that order; the
    record of a cell has the fields of the cell and the value of the
    reduction on it as brightness; and [self.results] afterwards is that
    list of records, whatever it held before.  When the reduction raises
    on some cell, the first such exception is the outcome, no record is
    returned and [self.results] is left as it was; so it is, with the
    "No image loaded" [ValueError], when no image is loaded. *)
Theorem analyze_all_cells_records method s :
  (cells s = [] → analyze_all_cells method s = (Raise no_cells, s))
  ∧ (∀ img, cells s ≠ [] → image s = Some img →
       reducible img method (store s) (cells s) →
       ∃ recs s',
         analyze_all_cells method s = (Ok recs, s')
         ∧ results s' = recs
         ∧ length recs = length (cells s)
         ∧ (∀ (i r : nat), cells s !! i = Some r →
              ∃ c b, store s !! r = Some c
                ∧ reduce (cell_region img c) method = Ok b
                ∧ recs !! i = Some
                    {| r_cell_id := cell_id c; r_x := x c; r_y := y c;
                       r_width := width c; r_height := height c;
                       r_brightness := b |}))
  ∧ (∀ img pre (r : nat) post c e,
       cells s = pre ++ r :: post → image s = Some img →
       reducible img method (store s) pre →
       store s !! r = Some c →
       reduce (cell_region img c) method = Raise e →
       ∃ s', analyze_all_cells method s = (Raise e, s')
           ∧ results s' = results s)
  ∧ (cells s ≠ [] → image s = None →
       analyze_all_cells method s = (Raise no_image, s)).
Proof.
  split; [| split; [| split]].
  - intros Hcells. rewrite analyze_all_cells_unfold, Hcells. reflexivity.
  - intros img Hne Himg Hred.
    destruct (analyze_loop_ok img method (store s) (cells s) [] s Himg
                (same_geometry_refl _) Hred)
      as (s1 & Hloop & _ & _ & _ & _).
    rewrite analyze_all_cells_unfold, Hloop.
    destruct (cells s) as [| cell l] eqn:Hcells; [contradiction |].
    rewrite <- Hcells in *. clear Hne.
    eexists _, _. split; [reflexivity |]. split; [reflexivity |]. simpl.
    split; [apply records_length, Hred |].
    intros i r Hi.
    destruct (records_lookup _ _ _ _ _ _ Hred Hi) as (c & b & Hc & Hb & Hi').
    exists c, b. repeat split; assumption.
  - intros img pre r post c e Hcells Himg Hpre Hc He.
    destruct (analyze_loop_raise img method pre r post c e s Himg Hpre Hc He)
      as (s' & Hloop & Hrs).
    exists s'. rewrite analyze_all_cells_unfold, Hcells, Hloop.
    split; [destruct pre; reflexivity | exact Hrs].
  - intros Hne Himg. rewrite analyze_all_cells_unfold.
    destruct (cells s) as [| cell l]; [contradiction |]. simpl.
    unfold mbind, M_bind, analyze_step at 1, mbind, M_bind.
    rewrite (calculate_brightness_no_image _ _ _ Himg). reflexivity.
Qed.

End AnalysisProperties.

(** ** Region extraction *)

Lemma zrange_lookup a b (i : nat) k :
  zrange a b !! i = Some k ↔ k = a + Z.of_nat i ∧ Z.of_nat i < b - a.
Proof.
  unfold zrange. rewrite list_lookup_fmap. split.
  - destruct (seq 0 (Z.to_nat (b - a)) !! i) as [j |] eqn:Hj; [| discriminate].
    apply lookup_seq in Hj as [-> Hi]. simpl. intros [= <-]. lia.
  - intros [-> Hi]. rewrite lookup_seq_lt by lia. reflexivity.
Qed.

(** A slice with non-negative bounds holds the elements at the indices
    from [start] up to [stop], as far as the list has them. *)
Lemma slice_nonneg {A} (d : A) (l : list A) start stop :
  0 ≤ start → 0 ≤ stop →
  slice (Z.of_nat (length l)) start stop l
  = map (λ i, nth (Z.to_nat i) l d)
        (zrange (Z.max 0 start) (Z.min (Z.of_nat (length l)) stop)).
Proof.
  intros Hstart Hstop. unfold slice, adjust_index.
  destruct (Z.ltb_spec start 0) as [? | _]; [lia |].
  destruct (Z.ltb_spec stop 0) as [? | _]; [lia |].
  set (n := Z.of_nat (length l)).
  apply list_eq. intros i.
  rewrite list_lookup_fmap, lookup_take, lookup_drop.
  destruct (zrange (Z.max 0 start) (Z.min n stop) !! i) as [k |] eqn:Hk.
  - apply zrange_lookup in Hk as [-> Hi]. simpl.
    assert (Hlt : (Z.to_nat start + i < length l)%nat) by (unfold n in *; lia).
    destruct (Z.leb_spec n start), (Z.leb_spec n stop);
      (case_decide; [| lia]);
      try lia;
      replace (Z.to_nat (Z.max 0 start + Z.of_nat i))
        with (Z.to_nat start + i)%nat by lia;
      apply lookup_lt_is_Some in Hlt as [a Ha];
      rewrite Ha; f_equal; symmetry; apply nth_lookup_Some, Ha.
  - simpl.
    assert (Hge : ¬ Z.of_nat i < Z.min n stop - Z.max 0 start).
    { intros Hi.
      assert (zrange (Z.max 0 start) (Z.min n stop) !! i
              = Some (Z.max 0 start + Z.of_nat i))
        by (apply zrange_lookup; split; [reflexivity | exact Hi]).
      congruence. }
    destruct (Z.leb_spec n start), (Z.leb_spec n stop);
      case_decide; try reflexivity; lia.
Qed.

Lemma rectangular_row img row :
  rectangular img → row ∈ img → Z.of_nat (length row) = snd (shape img).
Proof.
  intros Hrect Hrow. unfold shape. simpl. f_equal.
  unfold rectangular in Hrect. rewrite Forall_forall in Hrect.
  apply Hrect, Hrow.
Qed.

(** For a region with non-negative offsets and far edges, the extracted
    array is the part of the rectangle inside the grid. *)
Lemma cell_region_intersection img c :
  rectangular img →
  0 ≤ x c → 0 ≤ y c → 0 ≤ x c + width c → 0 ≤ y c + height c →
  cell_region img c = intersection img c.
Proof.
  intros Hrect Hx Hy Hxw Hyh. unfold cell_region, Np.slice2, intersection.
  unfold shape at 2. simpl fst.
  rewrite (slice_nonneg [] img) by assumption.
  rewrite map_map. apply map_ext_in. intros r Hr.
  apply list_elem_of_In, list_elem_of_lookup in Hr as [i Hi].
  apply zrange_lookup in Hi as [-> Hi].
  assert (Hrow : nth (Z.to_nat (Z.max 0 (y c) + Z.of_nat i)) img [] ∈ img).
  { apply list_elem_of_In, nth_In. unfold shape in Hi. simpl in Hi. lia. }
  rewrite <- (rectangular_row _ _ Hrect Hrow).
  rewrite (slice_nonneg 0) by assumption.
  reflexivity.
Qed.

Section ExtractionProperties.
Context `{Np.Release}.

(** C8 (amended).  For a region with non-negative [x], [y], [width] and
    [height] that runs past the right or the bottom edge of the grid,
    the extracted array is the part of the region inside the grid, and
    [calculate_brightness] returns what the reduction gives on that
    part; in particular ["mean"] and ["median"] always return. *)
Theorem cell_region_truncates s img cell c :
  image s = Some img →
  store s !! cell = Some c →
  rectangular img →
  0 ≤ x c → 0 ≤ y c → 0 ≤ width c → 0 ≤ height c →
  past_edges img c →
  cell_region img c = intersection img c
  ∧ (∀ method, fst (calculate_brightness cell method s)
               = reduce (intersection img c) method)
  ∧ is_ok (fst (calculate_brightness cell "mean" s))
  ∧ is_ok (fst (calculate_brightness cell "median" s)).
Proof.
  intros Himg Hc Hrect Hx Hy Hw Hh _.
  assert (Hcut : cell_region img c = intersection img c)
    by (apply cell_region_intersection; [assumption | lia ..]).
  assert (Hrun : ∀ method, fst (calculate_brightness cell method s)
                           = reduce (intersection img c) method).
  { intros method. rewrite (calculate_brightness_run _ _ _ _ Himg).
    rewrite (list_lookup_total_correct _ _ _ Hc), Hcut.
    destruct (reduce (intersection img c) method); reflexivity. }
  split; [exact Hcut |]. split; [exact Hrun |].
  rewrite !Hrun. split; exact I.
Qed.

End ExtractionProperties.

(** ** Order between the reductions *)

Lemma maxZ_upper a l v : v ∈ a :: l → v ≤ Np.maxZ a l.
Proof.
  induction l as [| b l IH]; simpl.
  - intros ->%list_elem_of_singleton. lia.
  - rewrite !elem_of_cons. intros [-> | [-> | Hv]].
    + assert (a ≤ Np.maxZ a l) by (apply IH; left). lia.
    + lia.
    + assert (v ≤ Np.maxZ a l) by (apply IH; right; exact Hv). lia.
Qed.

Lemma sumZ_le l m :
  Forall (λ v, v ≤ m) l → Np.sumZ l ≤ Z.of_nat (length l) * m.
Proof.
  induction 1 as [| v l Hv _ IH]; simpl; [lia |]. lia.
Qed.

Lemma Qdiv_le_of_le (a n m : Z) :
  0 < n → a ≤ n * m → (inject_Z a / inject_Z n <= inject_Z m)%Q.
Proof.
  intros Hn Ha.
  apply Qle_shift_div_r.
  - replace 0%Q with (inject_Z 0) by reflexivity. rewrite <- Zlt_Qlt. exact Hn.
  - rewrite <- inject_Z_mult, <- Zle_Qle. lia.
Qed.

Lemma mean_le_max a l :
  ∃ me, Np.mean (a :: l) = Fin me ∧ (me <= inject_Z (Np.maxZ a l))%Q.
Proof.
  eexists. split; [reflexivity |].
  rewrite Qred_correct. apply Qdiv_le_of_le; [simpl; lia |].
  apply sumZ_le, Forall_forall. intros v Hv. apply maxZ_upper, Hv.
Qed.

Lemma sorted_length l : length (Np.sorted l) = length l.
Proof. unfold Np.sorted. apply Permutation_length, merge_sort_Permutation. Qed.

Lemma sorted_nth_elem l (k : nat) :
  (k < length l)%nat → nth k (Np.sorted l) 0 ∈ l.
Proof.
  intros Hk.
  assert (Hin : nth k (Np.sorted l) 0 ∈ Np.sorted l).
  { apply list_elem_of_In, nth_In. rewrite sorted_length. exact Hk. }
  revert Hin. generalize (nth k (Np.sorted l) 0). intros v Hv.
  unfold Np.sorted in Hv. rewrite merge_sort_Permutation in Hv. exact Hv.
Qed.

Lemma median_le_max a l :
  ∃ md, Np.median (a :: l) = Fin md ∧ (md <= inject_Z (Np.maxZ a l))%Q.
Proof.
  unfold Np.median.
  assert (Hle : ∀ k : nat, (k < length (a :: l))%nat →
            nth k (Np.sorted (a :: l)) 0 ≤ Np.maxZ a l)
    by (intros k Hk; apply maxZ_upper, sorted_nth_elem, Hk).
  remember (length (a :: l)) as n eqn:Hn. simpl in Hn.
  destruct n as [| n'] eqn:Hn'; [lia |]. rewrite <- Hn' in *.
  assert (Hhalf : (n / 2 < n)%nat) by (apply Nat.div_lt; lia).
  destruct (Nat.even n).
  - eexists. split; [reflexivity |].
    rewrite Qred_correct.
    pose proof (Hle (n / 2 - 1)%nat ltac:(lia)) as H1.
    pose proof (Hle (n / 2)%nat Hhalf) as H2.
    rewrite <- inject_Z_plus.
    replace 2%Q with (inject_Z 2) by reflexivity.
    apply Qdiv_le_of_le; lia.
  - eexists. split; [reflexivity |].
    rewrite <- Zle_Qle. apply Hle, Hhalf.
Qed.

Lemma zrange_cons a b : a < b → ∃ l, zrange a b = a :: l.
Proof.
  intros Hab. unfold zrange.
  destruct (Z.to_nat (b - a)) as [| k] eqn:Hk; [lia |].
  simpl. eexists. f_equal. lia.
Qed.

(** A non-degenerate region inside the grid has samples. *)
Lemma cell_region_nonempty img c :
  rectangular img →
  0 ≤ x c → 0 ≤ y c → 0 < width c → 0 < height c →
  x c + width c ≤ snd (shape img) →
  y c + height c ≤ fst (shape img) →
  ∃ v l, Np.ravel (cell_region img c) = v :: l.
Proof.
  intros Hrect Hx Hy Hw Hh Hxw Hyh.
  rewrite cell_region_intersection by (assumption || lia).
  unfold intersection.
  destruct (zrange_cons (Z.max 0 (y c))
              (Z.min (fst (shape img)) (y c + height c))) as [rs ->]; [lia |].
  destruct (zrange_cons (Z.max 0 (x c))
              (Z.min (snd (shape img)) (x c + width c))) as [cs ->]; [lia |].
  simpl. eexists _, _. reflexivity.
Qed.

Section OrderProperties.
Context `{Np.Release}.

(** C1 (amended).  On a non-degenerate region that lies inside the grid,
    ["max"], ["mean"] and ["median"] all return a number, and the
    maximum is at least the mean and at least the median. *)
Theorem max_bounds_mean_and_median s img cell c :
  image s = Some img →
  store s !! cell = Some c →
  rectangular img →
  0 ≤ x c → 0 ≤ y c → 0 < width c → 0 < height c →
  x c + width c ≤ snd (shape img) →
  y c + height c ≤ fst (shape img) →
  ∃ mx me md,
    fst (calculate_brightness cell "max" s) = Ok (Fin mx)
    ∧ fst (calculate_brightness cell "mean" s) = Ok (Fin me)
    ∧ fst (calculate_brightness cell "median" s) = Ok (Fin md)
    ∧ (me <= mx)%Q ∧ (md <= mx)%Q.
Proof.
  intros Himg Hc Hrect Hx Hy Hw Hh Hxw Hyh.
  destruct (cell_region_nonempty img c) as (v & l & Hsamples);
    try assumption.
  destruct (mean_le_max v l) as (me & Hme & Hme_le).
  destruct (median_le_max v l) as (md & Hmd & Hmd_le).
  exists (inject_Z (Np.maxZ v l)), me, md.
  rewrite !(calculate_brightness_run _ _ _ _ Himg).
  rewrite (list_lookup_total_correct _ _ _ Hc).
  unfold reduce. simpl. rewrite Hsamples, Hme, Hmd. simpl.
  repeat split; assumption.
Qed.

End OrderProperties.

(** ** Failures of the grid partition *)

Lemma add_cells_grid_no_image s rows cols margin spacing :
  image s = None →
  add_cells_grid rows cols margin spacing s = (Raise no_image, s).
Proof.
  intros Himg. unfold add_cells_grid, mbind, M_bind, loaded_image.
  rewrite Himg. reflexivity.
Qed.

Lemma add_cells_grid_zero s img rows cols margin spacing :
  image s = Some img →
  cols = 0 ∨ rows = 0 →
  add_cells_grid rows cols margin spacing s = (Raise ZeroDivisionError, s).
Proof.
  intros Himg Hzero. unfold add_cells_grid, mbind, M_bind, loaded_image.
  rewrite Himg. unfold shape, floordiv. simpl.
  destruct (Z.eqb_spec cols 0) as [| Hcols]; [reflexivity |].
  destruct (Z.eqb_spec rows 0) as [| Hrows]; [reflexivity |].
  destruct Hzero; contradiction.
Qed.

(** C7 (amended).  [add_cells_grid] raises the "No image loaded"
    [ValueError] when no image is loaded.  With an image it raises
    [ZeroDivisionError] when [cols] or [rows] is zero, and in every other
    case it returns: [max(rows,0) * max(cols,0)] cells of the computed
    width and height, whatever their sign. *)
Theorem add_cells_grid_failures s rows cols margin spacing :
  (image s = None →
     add_cells_grid rows cols margin spacing s = (Raise no_image, s))
  ∧ (∀ img, image s = Some img →
       (cols = 0 ∨ rows = 0 →
          add_cells_grid rows cols margin spacing s
          = (Raise ZeroDivisionError, s))
       ∧ (rows ≠ 0 → cols ≠ 0 →
          ∃ refs s',
            add_cells_grid rows cols margin spacing s = (Ok refs, s')
            ∧ length refs = (Z.to_nat rows * Z.to_nat cols)%nat
            ∧ ∀ r, r ∈ refs → ∃ c,
                store s' !! r = Some c
                ∧ width c
                  = (snd (shape img) - 2 * margin - (cols - 1) * spacing)
                    / cols
                ∧ height c
                  = (fst (shape img) - 2 * margin - (rows - 1) * spacing)
                    / rows)).
Proof.
  split; [apply add_cells_grid_no_image |].
  intros img Himg. split; [apply (add_cells_grid_zero _ img), Himg |].
  intros Hrows Hcols.
  eexists _, _. split; [apply add_cells_grid_run; eassumption |].
  split; [rewrite length_seq; apply grid_cells_length |].
  intros r [i Hi]%list_elem_of_lookup.
  rewrite (allocated_lookup _ _ _ _ _ Hi).
  apply lookup_seq in Hi as [_ Hi].
  pose proof Hi as Hlt. rewrite grid_cells_length in Hlt.
  destruct (grid_index _ _ _ Hlt) as (row & col & Hrow & Hcol & ->).
  rewrite grid_cells_lookup by assumption.
  eexists. repeat split.
Qed.

(** ** Brightness of newly created cells *)

Lemma creates_uncomputed_raise {A} (refs_of : A → list nat) (m : M A) s e :
  m s = (Raise e, s) →
  ∃ new,
    store (snd (m s)) = store s ++ new
    ∧ Forall (λ c, brightness c = Fin 0) new
    ∧ match fst (m s) with
      | Ok a => refs_of a = seq (length (store s)) (length new)
      | Raise _ => new = []
      end.
Proof.
  intros ->. exists []. simpl. rewrite app_nil_r.
  split; [reflexivity |]. split; [constructor | reflexivity].
Qed.

Lemma grid_cells_uncomputed margin spacing cw ch rows cols :
  Forall (λ c, brightness c = Fin 0)
         (grid_cells margin spacing cw ch rows cols).
Proof.
  apply Forall_forall. intros c Hc.
  apply list_elem_of_In, in_flat_map in Hc as (row & _ & Hc).
  apply in_flat_map in Hc as (col & _ & Hc).
  destruct Hc as [<- | []]. reflexivity.
Qed.

Section CreationProperties.
Context `{OpenCV}.

Lemma detected_cells_uncomputed (l : list (nat * Contour)) :
  Forall (λ c, brightness c = Fin 0) (map detected_cell l).
Proof.
  apply Forall_forall. intros c Hc.
  apply list_elem_of_fmap in Hc as ([i contour] & -> & _).
  unfold detected_cell. simpl.
  destruct (boundingRect contour) as [[[bx by_] bw] bh]. reflexivity.
Qed.

(** C9.  Each of the three ways of defining regions only allocates cells
    whose [brightness] is the default [0.0], and writes to no cell that
    exists already: a brightness other than the default can only come
    from [calculate_brightness]. *)
Theorem region_creation_uncomputed :
  (∀ min_area threshold_method,
     creates_uncomputed id
       (detect_cells_automatically min_area threshold_method))
  ∧ (∀ rows cols margin spacing,
       creates_uncomputed id (add_cells_grid rows cols margin spacing))
  ∧ (∀ x y width height cell_id,
       creates_uncomputed (λ r, [r])
         (add_cell_manual x y width height cell_id)).
Proof.
  split; [| split].
  - intros min_area threshold_method s.
    destruct (image s) as [img |] eqn:Himg.
    + rewrite (detect_run _ _ _ _ Himg). simpl.
      eexists. split; [reflexivity |].
      split; [apply detected_cells_uncomputed | reflexivity].
    + apply creates_uncomputed_raise with (e := no_image).
      apply detect_no_image, Himg.
  - intros rows cols margin spacing s.
    destruct (image s) as [img |] eqn:Himg.
    + destruct (decide (cols = 0 ∨ rows = 0)) as [Hzero | Hnz].
      * apply creates_uncomputed_raise with (e := ZeroDivisionError).
        eapply add_cells_grid_zero; eassumption.
      * rewrite (add_cells_grid_run _ _ _ _ _ _ Himg) by tauto. simpl.
        eexists. split; [reflexivity |].
        split; [apply grid_cells_uncomputed | reflexivity].
    + apply creates_uncomputed_raise with (e := no_image).
      apply add_cells_grid_no_image, Himg.
  - intros x0 y0 w h cell_id s.
    exists [Cell_init x0 y0 w h
              (Some match cell_id with
                    | None => "cell_" +:+ str (Z.of_nat (length (cells s)) + 1)
                    | Some c => c
                    end)].
    split; [reflexivity |].
    split; [repeat constructor | reflexivity].
Qed.

End CreationProperties.

(** * Concrete runs *)

(** C1, refuted as stated.  On the one-row image [0, 10, 10], whose
    samples are non-negative, the region covering the whole row is
    non-degenerate and inside the grid; its mean is 20/3 and its median
    is 10, so the mean is below the median. *)
Lemma mean_below_median :
  rectangular [[0; 10; 10]]
  ∧ Forall (Forall (λ v, 0 ≤ v)) [[0; 10; 10]]
  ∧ fst (@calculate_brightness release_nan 0%nat "mean" strip)
    = Ok (Fin (20 # 3))
  ∧ fst (@calculate_brightness release_nan 0%nat "median" strip)
    = Ok (Fin 10)
  ∧ ¬ (10 <= 20 # 3)%Q.
Proof.
  split; [repeat constructor |].
  split; [repeat constructor; lia |].
  split; [reflexivity |]. split; [reflexivity |].
  intros Hle. vm_compute in Hle. apply Hle. reflexivity.
Qed.


(** C4, refuted as stated.  The grid partition of a one-pixel image into
    two columns yields cells of width zero; on such a cell the recognized
    method ["max"] raises and stores nothing. *)
Lemma max_on_empty_region_raises :
  snd (add_cells_grid 1 2 0 0 dot) = sliver
  ∧ recognized "max"
  ∧ @calculate_brightness release_nan 0%nat "max" sliver
    = (Raise zero_size, sliver)
  ∧ ¬ is_ok (fst (@calculate_brightness release_nan 0%nat "max" sliver)).
Proof.
  split; [reflexivity |].
  split; [right; right; left; reflexivity |].
  split; [reflexivity |].
  intros Hok. exact Hok.
Qed.

(** C5, refuted as stated.  [self.cells] holds two cells, of width
    zero, and [self.results] one record of an earlier analysis.  Under
    the recognized method ["max"] the analysis raises on the first cell:
    it returns no record, let alone one per cell, and [self.results]
    still holds the earlier record. *)
Lemma analysis_raises_on_cells :
  cells stale ≠ []
  ∧ recognized "max"
  ∧ @analyze_all_cells release_nan "max" stale = (Raise zero_size, stale)
  ∧ ¬ is_ok (fst (@analyze_all_cells release_nan "max" stale))
  ∧ results (snd (@analyze_all_cells release_nan "max" stale))
    = [mkRecord (Some "cell_r1_c1") 0 0 0 1 NaN].
Proof.
  split; [discriminate |].
  split; [right; right; left; reflexivity |].
  split; [vm_compute; reflexivity |].
  split; [intros Hok; vm_compute in Hok; exact Hok | vm_compute; reflexivity].
Qed.

(** C7, refuted as stated.  With one row and two columns on a one-pixel
    image the computed cell width is zero, and with a negative number of
    rows there is nothing to lay out; [add_cells_grid] raises in neither
    case. *)
Lemma add_cells_grid_unguarded :
  (snd (shape [[7]]) - 2 * 0 - (2 - 1) * 0) / 2 ≤ 0
  ∧ add_cells_grid 1 2 0 0 dot = (Ok [0%nat; 1%nat], sliver)
  ∧ ¬ raises (fst (add_cells_grid 1 2 0 0 dot))
  ∧ add_cells_grid (-1) 1 0 0 dot = (Ok [], dot)
  ∧ ¬ raises (fst (add_cells_grid (-1) 1 0 0 dot)).
Proof.
  split; [vm_compute; discriminate |].
  split; [reflexivity |].
  split; [intros Hr; exact Hr |].
  split; [reflexivity |].
  intros Hr. exact Hr.
Qed.

(** C8, refuted as stated.  A region that starts one column left of the
    grid and ends beyond its right edge is cut to the last column only,
    not to the part of the region inside the grid. *)
Lemma negative_offset_wraps :
  rectangular [[10; 20; 30]]
  ∧ past_edges [[10; 20; 30]] overhang
  ∧ cell_region [[10; 20; 30]] overhang = [[30]]
  ∧ intersection [[10; 20; 30]] overhang = [[10; 20; 30]]
  ∧ cell_region [[10; 20; 30]] overhang ≠ intersection [[10; 20; 30]] overhang
  ∧ fst (@calculate_brightness release_nan 0%nat "mean" overhang_session)
    = Ok (Fin 30).
Proof.
  split; [repeat constructor |].
  split; [left; vm_compute; reflexivity |].
  split; [reflexivity |]. split; [reflexivity |].
  split; [discriminate | reflexivity].
Qed.

(** A region wholly beyond the right edge is cut to nothing, on which
    ["max"] raises. *)
Example max_beyond_the_edge :
  let c := Cell_init 1 0 1 1 None in
  past_edges [[7]] c
  ∧ @calculate_brightness release_nan 0%nat "max"
      (mkAnalyzer [c] (Some [[7]]) [0%nat] [])
    = (Raise zero_size, mkAnalyzer [c] (Some [[7]]) [0%nat] []).
Proof. split; [left; vm_compute; reflexivity | reflexivity]. Qed.

(** Of three contours with areas 200, 50 and 300, a minimal area of 100
    keeps the first and the third, named [cell_1] and [cell_3]. *)
Example detect_ids_skip :
  let s := snd (@detect_cells_automatically (stub_cv three_blobs)
                  100 "otsu" dot) in
  cells s = [0%nat; 1%nat]
  ∧ map cell_id (store s) = [Some "cell_1"; Some "cell_3"].
Proof. split; reflexivity. Qed.

(** The order between the reductions, on the one-row image. *)
Lemma max_bounds_mean_and_median_witness :
  ∃ mx me md,
    fst (@calculate_brightness release_nan 0%nat "max" strip) = Ok (Fin mx)
    ∧ fst (@calculate_brightness release_nan 0%nat "mean" strip)
      = Ok (Fin me)
    ∧ fst (@calculate_brightness release_nan 0%nat "median" strip)
      = Ok (Fin md)
    ∧ (me <= mx)%Q ∧ (md <= mx)%Q.
Proof.
  apply (@max_bounds_mean_and_median release_nan strip [[0; 10; 10]] 0%nat
           (Cell_init 0 0 3 1 (Some "cell_1")));
    [reflexivity | reflexivity | repeat constructor | cbn; lia ..].
Defined.

(** The partition of the two-by-three image into two rows of three. *)
Lemma add_cells_grid_partition_witness :
  ∃ refs s',
    add_cells_grid 2 3 0 0 plate = (Ok refs, s')
    ∧ Z.of_nat (length refs) = 2 * 3
    ∧ cells s' = cells plate ++ refs.
Proof.
  destruct (add_cells_grid_partition plate [[0; 10; 10]; [1; 2; 3]] 2 3 0 0)
    as (refs & s' & Hrun & Hlen & Hcells & _);
    [reflexivity | lia | lia | lia | lia |].
  exists refs, s'. split; [exact Hrun |]. split; [exact Hlen | exact Hcells].
Defined.


(** The reducer on the one-row image: an unknown token, a known one, and
    ["max"] on a cell of width zero. *)
Lemma calculate_brightness_contract_witness :
  @calculate_brightness release_nan 0%nat "sum" strip
  = (Raise (ValueError ("Unknown method: " +:+ "sum")), strip)
  ∧ (∃ b s',
       @calculate_brightness release_nan 0%nat "max" strip = (Ok b, s')
       ∧ store s' !! 0%nat
         = Some (with_brightness b (Cell_init 0 0 3 1 (Some "cell_1"))))
  ∧ @calculate_brightness release_nan 0%nat "max" sliver
    = (Raise zero_size, sliver).
Proof.
  split; [| split].
  - apply (proj1 (@calculate_brightness_contract release_nan strip
                    [[0; 10; 10]] 0%nat (Cell_init 0 0 3 1 (Some "cell_1"))
                    "sum" eq_refl eq_refl)).
    intros [Hm | [Hm | [Hm | Hm]]]; discriminate Hm.
  - destruct (proj1 (proj2 (@calculate_brightness_contract release_nan strip
                    [[0; 10; 10]] 0%nat (Cell_init 0 0 3 1 (Some "cell_1"))
                    "max" eq_refl eq_refl)))
      as (b & s' & Hrun & Hstored & _).
    + right; right; left; reflexivity.
    + left. discriminate.
    + exists b, s'. split; [exact Hrun | exact Hstored].
  - apply (proj2 (proj2 (@calculate_brightness_contract release_nan sliver
                    [[7]] 0%nat (Cell_init 0 0 0 1 (Some "cell_r1_c1"))
                    "max" eq_refl eq_refl))).
    reflexivity.
Defined.

(** The analysis of a fresh analyzer, of the partitioned two-by-three
    image, of the cells of width zero under ["max"], and of a cell
    without an image. *)
Lemma analyze_all_cells_records_witness :
  @analyze_all_cells release_nan "mean" init = (Raise no_cells, init)
  ∧ (∃ recs s',
       @analyze_all_cells release_nan "mean" plate_cells = (Ok recs, s')
       ∧ results s' = recs
       ∧ length recs = 6%nat)
  ∧ (∃ s', @analyze_all_cells release_nan "max" sliver = (Raise zero_size, s')
         ∧ results s' = results sliver)
  ∧ @analyze_all_cells release_nan "mean" unloaded = (Raise no_image, unloaded).
Proof.
  split; [| split; [| split]].
  - apply (proj1 (@analyze_all_cells_records release_nan "mean" init)).
    reflexivity.
  - destruct (proj1 (proj2 (@analyze_all_cells_records release_nan "mean"
                              plate_cells))
                    [[0; 10; 10]; [1; 2; 3]])
      as (recs & s' & Hrun & Hres & Hlen & _).
    + discriminate.
    + reflexivity.
    + repeat (constructor;
              [eexists; split; [reflexivity | vm_compute; exact I] |]).
      constructor.
    + exists recs, s'. split; [exact Hrun |]. split; [exact Hres | exact Hlen].
  - apply (proj1 (proj2 (proj2 (@analyze_all_cells_records release_nan "max"
                                  sliver)))
             [[7]] [] 0%nat [1%nat] (Cell_init 0 0 0 1 (Some "cell_r1_c1")));
      [reflexivity | reflexivity | constructor | reflexivity
       | vm_compute; reflexivity].
  - apply (proj2 (proj2 (proj2 (@analyze_all_cells_records release_nan "mean"
                                  unloaded))));
      [discriminate | reflexivity].
Defined.


(** The grid partition without an image, with no columns, and with more
    columns than pixels. *)
Lemma add_cells_grid_failures_witness :
  add_cells_grid 1 2 0 0 init = (Raise no_image, init)
  ∧ add_cells_grid 1 0 0 0 dot = (Raise ZeroDivisionError, dot)
  ∧ ∃ refs s',
      add_cells_grid 1 2 0 0 dot = (Ok refs, s')
      ∧ length refs = (Z.to_nat 1 * Z.to_nat 2)%nat.
Proof.
  split; [| split].
  - apply (proj1 (add_cells_grid_failures init 1 2 0 0)). reflexivity.
  - apply (proj1 (proj2 (add_cells_grid_failures dot 1 0 0 0) [[7]] eq_refl)).
    left. reflexivity.
  - destruct (proj2 (proj2 (add_cells_grid_failures dot 1 2 0 0)
                       [[7]] eq_refl))
      as (refs & s' & Hrun & Hlen & _); [discriminate | discriminate |].
    exists refs, s'. split; [exact Hrun | exact Hlen].
Defined.

(** A region that ends one column right of the one-by-three image. *)
Lemma cell_region_truncates_witness :
  cell_region [[10; 20; 30]] spill = intersection [[10; 20; 30]] spill
  ∧ is_ok (fst (@calculate_brightness release_nan 0%nat "mean"
                  spill_session)).
Proof.
  destruct (@cell_region_truncates release_nan spill_session [[10; 20; 30]]
              0%nat spill)
    as (Hcut & _ & Hmean & _);
    [reflexivity | reflexivity | repeat constructor
     | cbn; lia | cbn; lia | cbn; lia | cbn; lia
     | left; cbn; lia |].
  split; [exact Hcut | exact Hmean].
Defined.

(** * Further properties *)

(** ** The range of a brightness value *)

Lemma slice_elem {A} (n start stop : Z) (l : list A) (a : A) :
  a ∈ slice n start stop l → a ∈ l.
Proof.
  unfold slice. intros (i & Hi & _)%elem_of_take.
  rewrite lookup_drop in Hi. eapply list_elem_of_lookup_2, Hi.
Qed.

Lemma elem_of_concat {A} (x : A) (ls : list (list A)) :
  x ∈ concat ls ↔ ∃ l, l ∈ ls ∧ x ∈ l.
Proof.
  rewrite list_elem_of_In, in_concat.
  split; intros (l & Hl & Hx); exists l; split;
    first [apply list_elem_of_In; assumption | apply list_elem_of_In in Hl;
           assumption | apply list_elem_of_In in Hx; assumption].
Qed.

(** The extracted region only holds samples of the grid. *)
Lemma cell_region_samples img c v :
  v ∈ Np.ravel (cell_region img c) → v ∈ Np.ravel img.
Proof.
  unfold Np.ravel, cell_region, Np.slice2.
  intros (row & Hrow & Hv)%elem_of_concat.
  apply list_elem_of_fmap in Hrow as (row0 & -> & Hrow0).
  apply slice_elem in Hrow0, Hv.
  apply elem_of_concat. exists row0. split; assumption.
Qed.

Lemma cell_region_bounded lo hi img c :
  bounded lo hi img →
  Forall (λ v, lo ≤ v ≤ hi) (Np.ravel (cell_region img c)).
Proof.
  intros Hb. apply Forall_forall. intros v Hv.
  apply cell_region_samples in Hv.
  apply elem_of_concat in Hv as (row & Hrow & Hv).
  unfold bounded in Hb. rewrite Forall_forall in Hb.
  specialize (Hb row Hrow). rewrite Forall_forall in Hb. apply Hb, Hv.
Qed.

Lemma sumZ_ge l m :
  Forall (λ v, m ≤ v) l → Z.of_nat (length l) * m ≤ Np.sumZ l.
Proof.
  induction 1 as [| v l Hv _ IH]; simpl; [lia |]. lia.
Qed.

Lemma Qdiv_ge_of_ge (a n m : Z) :
  0 < n → n * m ≤ a → (inject_Z m <= inject_Z a / inject_Z n)%Q.
Proof.
  intros Hn Ha.
  apply Qle_shift_div_l.
  - replace 0%Q with (inject_Z 0) by reflexivity. rewrite <- Zlt_Qlt. exact Hn.
  - rewrite <- inject_Z_mult, <- Zle_Qle. lia.
Qed.

Lemma maxZ_elem a l : Np.maxZ a l ∈ a :: l.
Proof.
  induction l as [| b l IH]; simpl; [left |].
  destruct (Z.max_spec b (Np.maxZ a l)) as [[_ ->] | [_ ->]].
  - apply elem_of_cons in IH as [-> | IH]; [left | right; right; exact IH].
  - right; left.
Qed.

(** The virtual index of the 95th percentile among [n] order statistics,
    its integer part and its fractional part. *)
Lemma percentile_index (n : Z) :
  1 ≤ n →
  let idx := (inject_Z (n - 1) * 95 / 100)%Q in
  0 ≤ Qfloor idx ≤ n - 1
  ∧ (0 <= idx - inject_Z (Qfloor idx))%Q
  ∧ (idx - inject_Z (Qfloor idx) < 1)%Q.
Proof.
  intros Hn idx.
  assert (Hk : (0 <= inject_Z (n - 1))%Q)
    by (replace 0%Q with (inject_Z 0) by reflexivity; rewrite <- Zle_Qle; lia).
  assert (Hidx : (0 <= idx)%Q /\ (idx <= inject_Z (n - 1))%Q).
  { assert (E : (idx == inject_Z (n - 1) * (19 # 20))%Q)
      by (unfold idx; field).
    rewrite E. split; lra. }
  destruct Hidx as [Hidx0 Hidx1].
  split; [split |].
  - replace 0 with (Qfloor (inject_Z 0)) by reflexivity.
    apply Qfloor_resp_le. exact Hidx0.
  - rewrite <- (Qfloor_Z (n - 1)). apply Qfloor_resp_le. exact Hidx1.
  - pose proof (Qfloor_le idx) as Hfl.
    pose proof (Qlt_floor idx) as Hlt. rewrite inject_Z_plus in Hlt.
    change (inject_Z 1) with 1%Q in Hlt. split; lra.
Qed.

Lemma sorted_nth_bounds lo hi l (k : nat) :
  Forall (λ v, lo ≤ v ≤ hi) l →
  (k < length l)%nat →
  lo ≤ nth k (Np.sorted l) 0 ≤ hi.
Proof.
  intros Hb Hk. rewrite Forall_forall in Hb.
  apply Hb, sorted_nth_elem, Hk.
Qed.

Section RangeProperties.
Context `{Np.Release}.

(** On a non-empty region every recognized reduction returns a number
    between the bounds of the samples. *)
Lemma reduce_bounds lo hi g method b :
  Forall (λ v, lo ≤ v ≤ hi) (Np.ravel g) →
  Np.ravel g ≠ [] →
  reduce g method = Ok b →
  ∃ q, b = Fin q ∧ (inject_Z lo <= q)%Q ∧ (q <= inject_Z hi)%Q.
Proof.
  intros Hb Hne. unfold reduce.
  destruct (Np.ravel g) as [| v l] eqn:Hg; [contradiction |]. clear Hne.
  assert (Hlen : 0 < Z.of_nat (length (v :: l))) by (simpl; lia).
  destruct (String.eqb method "mean").
  { intros [= <-]. eexists. split; [reflexivity |].
    rewrite Qred_correct. split.
    - apply Qdiv_ge_of_ge; [exact Hlen |].
      apply (sumZ_ge (v :: l) lo).
      eapply Forall_impl; [exact Hb |]. simpl. lia.
    - apply Qdiv_le_of_le; [exact Hlen |].
      apply (sumZ_le (v :: l) hi).
      eapply Forall_impl; [exact Hb |]. simpl. lia. }
  destruct (String.eqb method "median").
  { intros [= <-]. unfold Np.median.
    remember (length (v :: l)) as n eqn:Hn.
    assert (Hnth : ∀ k : nat, (k < n)%nat →
              lo ≤ nth k (Np.sorted (v :: l)) 0 ≤ hi)
      by (intros k Hk; apply sorted_nth_bounds; [exact Hb | lia]).
    simpl in Hn. destruct n as [| n'] eqn:Hn'; [lia |]. rewrite <- Hn' in *.
    assert (Hhalf : (n / 2 < n)%nat) by (apply Nat.div_lt; lia).
    pose proof (Hnth (n / 2)%nat Hhalf) as H2.
    destruct (Nat.even n).
    - pose proof (Hnth (n / 2 - 1)%nat ltac:(lia)) as H1.
      eexists. split; [reflexivity |]. rewrite Qred_correct.
      rewrite <- inject_Z_plus. change 2%Q with (inject_Z 2). split.
      + apply Qdiv_ge_of_ge; lia.
      + apply Qdiv_le_of_le; lia.
    - eexists. split; [reflexivity |]. rewrite <- !Zle_Qle. exact H2. }
  destruct (String.eqb method "max").
  { simpl. intros [= <-]. eexists. split; [reflexivity |].
    rewrite <- !Zle_Qle. rewrite Forall_forall in Hb.
    apply Hb, maxZ_elem. }
  destruct (String.eqb method "percentile"); [| discriminate].
  unfold Np.percentile.
  remember (length (v :: l)) as n eqn:Hn.
  destruct n as [| n'] eqn:Hn'; [simpl in Hn; lia |]. rewrite <- Hn' in *.
  destruct (percentile_index (Z.of_nat n)) as ([Hlo0 Hlo1] & Hf0 & Hf1); [lia |].
  set (idx := (inject_Z (Z.of_nat n - 1) * 95 / 100)%Q) in *.
  set (ilo := Qfloor idx) in *.
  pose proof (sorted_nth_bounds lo hi (v :: l) (Z.to_nat ilo) Hb
                ltac:(rewrite <- Hn; lia)) as Ha.
  pose proof (sorted_nth_bounds lo hi (v :: l)
                (Z.to_nat (Z.min (ilo + 1) (Z.of_nat n - 1))) Hb
                ltac:(rewrite <- Hn; lia)) as Hb'.
  destruct Ha as [Ha0 Ha1], Hb' as [Hb0 Hb1].
  rewrite Zle_Qle in Ha0, Ha1, Hb0, Hb1.
  set (qa := inject_Z (nth (Z.to_nat ilo) (Np.sorted (v :: l)) 0)) in *.
  set (qb := inject_Z (nth (Z.to_nat (Z.min (ilo + 1) (Z.of_nat n - 1)))
                           (Np.sorted (v :: l)) 0)) in *.
  set (f := (idx - inject_Z ilo)%Q) in *.
  intros Heq. exists (Qred (qa + (qb - qa) * f)).
  split; [congruence |].
  rewrite Qred_correct. split; nra.
Qed.

End RangeProperties.

Section RangeTheorems.
Context `{Np.Release}.

Lemma reduce_empty g method b :
  Np.ravel g = [] →
  method ≠ "percentile" →
  reduce g method = Ok b →
  b = NaN.
Proof.
  intros Hg Hm. unfold reduce. rewrite Hg.
  destruct (String.eqb method "mean"); [intros [= <-]; reflexivity |].
  destruct (String.eqb method "median"); [intros [= <-]; reflexivity |].
  destruct (String.eqb method "max"); [discriminate |].
  destruct (String.eqb_spec method "percentile"); [contradiction |].
  discriminate.
Qed.

(** X1.  When all samples of the image lie between [lo] and [hi], a
    brightness that [calculate_brightness] returns is either a number
    between [lo] and [hi], or NaN, and NaN only when the extracted region
    has no sample.  (["percentile"] on a region without samples is left
    aside: what the array library does there depends on its release.) *)
Theorem brightness_within_sample_range s img cell c lo hi method b :
  image s = Some img →
  store s !! cell = Some c →
  bounded lo hi img →
  (method = "percentile" → Np.ravel (cell_region img c) ≠ []) →
  fst (calculate_brightness cell method s) = Ok b →
  match b with
  | Fin q => (inject_Z lo <= q)%Q ∧ (q <= inject_Z hi)%Q
  | NaN => Np.ravel (cell_region img c) = []
  end.
Proof.
  intros Himg Hc Hb Hperc Hrun.
  rewrite (calculate_brightness_run _ _ _ _ Himg) in Hrun.
  rewrite (list_lookup_total_correct _ _ _ Hc) in Hrun.
  destruct (reduce (cell_region img c) method) as [b' | e] eqn:Hred;
    [| discriminate].
  injection Hrun as ->.
  destruct (Np.ravel (cell_region img c)) as [| v l] eqn:Hg.
  - assert (Hm : method ≠ "percentile") by (intros Hm; apply Hperc; [exact Hm | reflexivity]).
    rewrite (reduce_empty _ _ _ Hg Hm Hred). reflexivity.
  - destruct (reduce_bounds lo hi (cell_region img c) method b)
      as (q & -> & Hq); [| rewrite Hg; discriminate | exact Hred | exact Hq].
    apply cell_region_bounded, Hb.
Qed.

End RangeTheorems.

(** ** Order between the maximum, the percentile and the median *)

Lemma StronglySorted_nth (s : list Z) (i j : nat) :
  StronglySorted Z.le s →
  (i ≤ j)%nat → (j < length s)%nat →
  nth i s 0 ≤ nth j s 0.
Proof.
  intros Hs. revert i j.
  induction Hs as [| a s Hs IH Ha]; intros i j Hij Hj; simpl in Hj; [lia |].
  destruct i as [| i], j as [| j]; simpl; try lia.
  - rewrite Forall_forall in Ha. apply Ha, list_elem_of_In, nth_In. lia.
  - apply IH; lia.
Qed.

Lemma sorted_nth_mono l (i j : nat) :
  (i ≤ j)%nat → (j < length l)%nat →
  nth i (Np.sorted l) 0 ≤ nth j (Np.sorted l) 0.
Proof.
  intros Hij Hj. apply StronglySorted_nth; [| exact Hij |].
  - unfold Np.sorted. apply StronglySorted_merge_sort; apply _.
  - rewrite sorted_length. exact Hj.
Qed.

(** The integer part of the virtual index of the 95th percentile is at
    least the index of the upper median, except among two samples. *)
Lemma percentile_index_median (n : nat) :
  (1 ≤ n)%nat → n ≠ 2%nat →
  Z.of_nat (n / 2) ≤ Qfloor (inject_Z (Z.of_nat n - 1) * 95 / 100).
Proof.
  intros Hn Hn2.
  rewrite <- (Qfloor_Z (Z.of_nat (n / 2))). apply Qfloor_resp_le.
  assert (E : (inject_Z (Z.of_nat n - 1) * 95 / 100
               == inject_Z (Z.of_nat n - 1) * (19 # 20))%Q) by field.
  rewrite E.
  assert (Hz : 20 * Z.of_nat (n / 2) ≤ 19 * (Z.of_nat n - 1)).
  { pose proof (Nat.div_mod_eq n 2) as Hdm.
    pose proof (Nat.mod_upper_bound n 2 ltac:(lia)) as Hmod. lia. }
  rewrite Zle_Qle, !inject_Z_mult in Hz.
  change (inject_Z 20) with 20%Q in Hz. change (inject_Z 19) with 19%Q in Hz.
  lra.
Qed.

Section PercentileOrder.
Context `{Np.Release}.

Lemma percentile_between v l :
  ∃ p md,
    Np.percentile (v :: l) 95 = Ok (Fin p)
    ∧ Np.median (v :: l) = Fin md
    ∧ (md <= p)%Q ∧ (p <= inject_Z (Np.maxZ v l))%Q.
Proof.
  unfold Np.percentile, Np.median.
  assert (Hmono : ∀ i j : nat, (i ≤ j)%nat → (j < length (v :: l))%nat →
            (inject_Z (nth i (Np.sorted (v :: l)) 0%Z)
             <= inject_Z (nth j (Np.sorted (v :: l)) 0%Z))%Q)
    by (intros i j Hij Hj; rewrite <- Zle_Qle; apply sorted_nth_mono; lia).
  assert (Hmax : ∀ k : nat, (k < length (v :: l))%nat →
            (inject_Z (nth k (Np.sorted (v :: l)) 0%Z)
             <= inject_Z (Np.maxZ v l))%Q)
    by (intros k Hk; rewrite <- Zle_Qle;
        apply maxZ_upper, sorted_nth_elem, Hk).
  set (s := Np.sorted (v :: l)) in *.
  remember (length (v :: l)) as n eqn:Hn. simpl in Hn.
  destruct (decide (n = 2%nat)) as [-> | Hn2].
  - change (Qfloor (inject_Z (Z.of_nat 2 - 1) * 95 / 100)) with 0.
    change (Z.to_nat (Z.min (0 + 1) (Z.of_nat 2 - 1))) with 1%nat.
    change (Z.to_nat 0) with 0%nat.
    change (Nat.even 2) with true.
    change (2 / 2 - 1)%nat with 0%nat. change (2 / 2)%nat with 1%nat.
    pose proof (Hmono 0%nat 1%nat ltac:(lia) ltac:(lia)) as H01.
    pose proof (Hmax 1%nat ltac:(lia)) as H1.
    set (q0 := inject_Z (nth 0 s 0)) in *.
    set (q1 := inject_Z (nth 1 s 0)) in *.
    eexists _, _. split; [reflexivity |]. split; [reflexivity |].
    rewrite !Qred_correct.
    assert (E : (inject_Z (Z.of_nat 2 - 1) * 95 / 100 - inject_Z 0
                 == 19 # 20)%Q) by reflexivity.
    rewrite E. split.
    + apply Qle_shift_div_r; [reflexivity |]. lra.
    + lra.
  - destruct n as [| n'] eqn:Hn'; [lia |]. rewrite <- Hn' in *.
    destruct (percentile_index (Z.of_nat n))
      as ([Hlo0 Hlo1] & Hf0 & Hf1); [lia |].
    pose proof (percentile_index_median n ltac:(lia) Hn2) as Hhalf.
    set (idx := (inject_Z (Z.of_nat n - 1) * 95 / 100)%Q) in *.
    set (ilo := Qfloor idx) in *.
    set (ihi := Z.min (ilo + 1) (Z.of_nat n - 1)).
    pose proof (Hmono (n / 2)%nat (Z.to_nat ilo) ltac:(lia) ltac:(lia)) as Hmid.
    pose proof (Hmono (Z.to_nat ilo) (Z.to_nat ihi)
                  ltac:(unfold ihi; lia) ltac:(unfold ihi; lia)) as Hab.
    pose proof (Hmax (Z.to_nat ilo) ltac:(lia)) as Ha.
    pose proof (Hmax (Z.to_nat ihi) ltac:(unfold ihi; lia)) as Hb.
    pose proof (Hmono (n / 2 - 1)%nat (n / 2)%nat ltac:(lia)
                  ltac:(apply Nat.div_lt; lia)) as Hpair.
    set (qa := inject_Z (nth (Z.to_nat ilo) s 0)) in *.
    set (qb := inject_Z (nth (Z.to_nat ihi) s 0)) in *.
    set (f := (idx - inject_Z ilo)%Q) in *.
    set (m0 := inject_Z (nth (n / 2 - 1) s 0)) in *.
    set (m1 := inject_Z (nth (n / 2) s 0)) in *.
    exists (Qred (qa + (qb - qa) * f)).
    destruct (Nat.even n).
    + exists (Qred ((m0 + m1) / 2)).
      split; [reflexivity |]. split; [reflexivity |].
      rewrite !Qred_correct. split; [| nra].
      apply Qle_shift_div_r; [reflexivity |]. nra.
    + exists m1.
      split; [reflexivity |]. split; [reflexivity |].
      rewrite !Qred_correct. split; nra.
Qed.

(** X2.  On a region with at least one sample, ["max"], ["percentile"]
    and ["median"] all return a number, and
    maximum >= 95th percentile >= median. *)
Theorem max_percentile_median_order s img cell c :
  image s = Some img →
  store s !! cell = Some c →
  Np.ravel (cell_region img c) ≠ [] →
  ∃ mx p md,
    fst (calculate_brightness cell "max" s) = Ok (Fin mx)
    ∧ fst (calculate_brightness cell "percentile" s) = Ok (Fin p)
    ∧ fst (calculate_brightness cell "median" s) = Ok (Fin md)
    ∧ (md <= p)%Q ∧ (p <= mx)%Q.
Proof.
  intros Himg Hc Hne.
  destruct (Np.ravel (cell_region img c)) as [| v l] eqn:Hg; [contradiction |].
  destruct (percentile_between v l) as (p & md & Hp & Hmd & Hle1 & Hle2).
  exists (inject_Z (Np.maxZ v l)), p, md.
  rewrite !(calculate_brightness_run _ _ _ _ Himg).
  rewrite (list_lookup_total_correct _ _ _ Hc).
  unfold reduce. simpl. rewrite Hg, Hp, Hmd. simpl.
  repeat split; assumption.
Qed.

End PercentileOrder.

(** ** What the analysis leaves in the cells *)

Section AnalysisState.
Context `{Np.Release}.

Lemma analyzed_region img method c :
  cell_region img (analyzed img method c) = cell_region img c.
Proof. unfold analyzed. destruct (reduce _ method); reflexivity. Qed.

Lemma analyzed_idem img method c :
  analyzed img method (analyzed img method c) = analyzed img method c.
Proof.
  unfold analyzed at 1. rewrite analyzed_region. unfold analyzed.
  destruct (reduce (cell_region img c) method); reflexivity.
Qed.

Lemma record_of_analyzed img method c :
  record_of img method c = to_dict (analyzed img method c).
Proof.
  unfold record_of, analyzed.
  destruct (reduce (cell_region img c) method); reflexivity.
Qed.

Lemma analyzed_alter_lookup img method (st : list Cell) (r r' : nat) :
  analyzed img method (alter (analyzed img method) r st !!! r')
  = analyzed img method (st !!! r').
Proof.
  rewrite list_lookup_total_alter.
  case_decide; [| reflexivity].
  destruct H0 as [-> _]. apply analyzed_idem.
Qed.

Lemma reducible_alter img method (st : list Cell) (r : nat) l :
  reducible img method st l →
  reducible img method (alter (analyzed img method) r st) l.
Proof.
  unfold reducible. intros Hred.
  eapply Forall_impl; [exact Hred |]. simpl.
  intros r' (c & Hc & Hok).
  destruct (decide (r = r')) as [-> | Hne].
  - exists (analyzed img method c).
    rewrite list_lookup_alter_eq, Hc, analyzed_region. split; [reflexivity | exact Hok].
  - exists c. rewrite list_lookup_alter_ne by exact Hne. split; assumption.
Qed.

(** A run of the loop of [analyze_all_cells] on which every reduction is
    defined. *)
Lemma analyze_loop_run img method l acc s :
  image s = Some img →
  reducible img method (store s) l →
  foldM (analyze_step method) acc l s
  = (Ok (acc ++ map (λ r, to_dict (analyzed img method (store s !!! r))) l),
     mkAnalyzer (analyzed_store img method l (store s))
                (image s) (cells s) (results s)).
Proof.
  intros Himg Hred. revert acc s Himg Hred.
  induction l as [| r l IH]; intros acc s Himg Hred.
  - simpl. rewrite app_nil_r. destruct s; reflexivity.
  - pose proof (Forall_inv Hred) as (c & Hc & Hok).
    pose proof (Forall_inv_tail Hred) as Hred'.
    pose proof (list_lookup_total_correct _ _ _ Hc) as Hc'.
    assert (Han : analyzed img method c
                  = match reduce (cell_region img c) method with
                    | Ok b => with_brightness b c | Raise _ => c end)
      by reflexivity.
    simpl. unfold mbind, M_bind, analyze_step at 1, mbind, M_bind.
    rewrite (calculate_brightness_run _ _ _ _ Himg), Hc'.
    destruct (reduce (cell_region img c) method) as [b | e] eqn:Hb;
      [| contradiction].
    unfold deref, mret, M_ret. simpl.
    assert (Hst : alter (with_brightness b) r (store s)
                  = alter (analyzed img method) r (store s)).
    { apply list_alter_ext; [| reflexivity].
      intros c0 Hc0. rewrite Hc in Hc0. injection Hc0 as <-.
      symmetry. exact Han. }
    rewrite Hst.
    rewrite (IH _ (mkAnalyzer (alter (analyzed img method) r (store s))
                              (image s) (cells s) (results s)));
      [| exact Himg | apply reducible_alter, Hred'].
    simpl. rewrite <- app_assoc. simpl.
    rewrite list_lookup_total_alter_eq by (eapply lookup_lt_Some, Hc).
    rewrite Hc'.
    erewrite map_ext;
      [| intros r'; rewrite analyzed_alter_lookup; reflexivity].
    reflexivity.
Qed.

Lemma analyzed_store_cons img method r l st :
  analyzed_store img method (r :: l) st
  = analyzed_store img method l (alter (analyzed img method) r st).
Proof. reflexivity. Qed.

Lemma analyzed_store_length img method l st :
  length (analyzed_store img method l st) = length st.
Proof.
  revert st. induction l as [| r l IH]; intros st; [reflexivity |].
  rewrite analyzed_store_cons, IH. apply length_alter.
Qed.

(** The cells that [l] names have their brightness computed, the others
    are as they were. *)
Lemma analyzed_store_lookup img method l st (r : nat) :
  analyzed_store img method l st !! r
  = if decide (r ∈ l) then analyzed img method <$> st !! r else st !! r.
Proof.
  revert st. induction l as [| a l IH]; intros st.
  - simpl. destruct (decide (r ∈ [])) as [Hin | _]; [| reflexivity].
    apply elem_of_nil in Hin. contradiction.
  - rewrite analyzed_store_cons, IH.
    destruct (decide (a = r)) as [-> | Hne].
    + rewrite list_lookup_alter_eq.
      rewrite (decide_True (P := r ∈ r :: l)) by left.
      case_decide; [| reflexivity].
      destruct (st !! r) as [c |]; simpl; [| reflexivity].
      rewrite analyzed_idem. reflexivity.
    + rewrite list_lookup_alter_ne by exact Hne.
      destruct (decide (r ∈ l)) as [Hin | Hnin].
      * rewrite (decide_True (P := r ∈ a :: l)) by (right; exact Hin).
        reflexivity.
      * rewrite (decide_False (P := r ∈ a :: l)); [reflexivity |].
        intros [-> | Hin]%elem_of_cons; [congruence | contradiction].
Qed.

Lemma analyzed_store_idem img method l st :
  analyzed_store img method l (analyzed_store img method l st)
  = analyzed_store img method l st.
Proof.
  apply list_eq. intros r. rewrite !analyzed_store_lookup.
  case_decide; [| reflexivity].
  destruct (st !! r) as [c |]; simpl; [| reflexivity].
  rewrite analyzed_idem. reflexivity.
Qed.

Lemma reducible_analyzed_store img method l' st l :
  reducible img method st l →
  reducible img method (analyzed_store img method l' st) l.
Proof.
  revert st. induction l' as [| r l' IH]; intros st Hred; [exact Hred |].
  rewrite analyzed_store_cons. apply IH, reducible_alter, Hred.
Qed.

(** A successful call of [analyze_all_cells], start to end. *)
Lemma analyze_all_cells_run img method s :
  image s = Some img →
  cells s ≠ [] →
  reducible img method (store s) (cells s) →
  analyze_all_cells method s
  = (Ok (map (λ r, to_dict (analyzed img method (store s !!! r))) (cells s)),
     mkAnalyzer (analyzed_store img method (cells s) (store s))
                (image s) (cells s)
                (map (λ r, to_dict (analyzed img method (store s !!! r)))
                     (cells s))).
Proof.
  intros Himg Hne Hred.
  rewrite analyze_all_cells_unfold.
  rewrite (analyze_loop_run img method (cells s) [] s Himg Hred).
  destruct (cells s); [contradiction | reflexivity].
Qed.

(** A loop that returns has found every reduction defined. *)
Lemma analyze_loop_inv img method l acc s recs s' :
  image s = Some img →
  Forall (λ r : nat, (r < length (store s))%nat) l →
  foldM (analyze_step method) acc l s = (Ok recs, s') →
  reducible img method (store s) l.
Proof.
  intros Himg. revert acc s Himg.
  induction l as [| r l IH]; intros acc s Himg Hvalid Hrun; [constructor |].
  pose proof (Forall_inv Hvalid) as Hr.
  pose proof (Forall_inv_tail Hvalid) as Hvalid'.
  apply lookup_lt_is_Some in Hr as [c Hc].
  pose proof (list_lookup_total_correct _ _ _ Hc) as Hc'.
  simpl in Hrun. unfold mbind, M_bind, analyze_step at 1, mbind, M_bind in Hrun.
  rewrite (calculate_brightness_run _ _ _ _ Himg), Hc' in Hrun.
  destruct (reduce (cell_region img c) method) as [b | e] eqn:Hb;
    [| discriminate].
  unfold deref, mret, M_ret in Hrun. simpl in Hrun.
  apply IH in Hrun; [| exact Himg | simpl; rewrite length_alter; exact Hvalid'].
  simpl in Hrun. constructor.
  - exists c. split; [exact Hc | rewrite Hb; exact I].
  - unfold reducible in *. eapply Forall_impl; [exact Hrun |]. simpl.
    intros r' (c1 & Hc1 & Hok).
    destruct (decide (r = r')) as [<- | Hne].
    + rewrite list_lookup_alter_eq, Hc in Hc1. injection Hc1 as <-.
      exists c. split; [exact Hc | exact Hok].
    + rewrite list_lookup_alter_ne in Hc1 by exact Hne.
      exists c1. split; assumption.
Qed.

(** A call of [analyze_all_cells] that returns had an image, cells, and
    every reduction defined. *)
Lemma analyze_all_cells_inv method s recs s' :
  Forall (λ r : nat, (r < length (store s))%nat) (cells s) →
  analyze_all_cells method s = (Ok recs, s') →
  ∃ img, image s = Some img ∧ cells s ≠ []
         ∧ reducible img method (store s) (cells s).
Proof.
  intros Hvalid Hrun. rewrite analyze_all_cells_unfold in Hrun.
  destruct (cells s) as [| r l] eqn:Hcells; [discriminate |].
  rewrite <- Hcells in *.
  destruct (image s) as [img |] eqn:Himg.
  - exists img. split; [reflexivity |]. split; [congruence |].
    destruct (foldM (analyze_step method) [] (cells s) s)
      as [[recs1 | e] s1] eqn:Hloop; [| discriminate].
    eapply analyze_loop_inv; eassumption.
  - rewrite Hcells in Hrun. simpl in Hrun.
    unfold mbind, M_bind, analyze_step at 1, mbind, M_bind in Hrun.
    rewrite (calculate_brightness_no_image _ _ _ Himg) in Hrun.
    discriminate.
Qed.

(** X3.  When [analyze_all_cells] returns, the records it returns, which
    are also [self.results], are the [to_dict] of the cells of
    [self.cells] as they are after the call: no record disagrees with
    the brightness stored in its cell. *)
Theorem analysis_records_match_cells method s recs s' :
  Forall (λ r : nat, (r < length (store s))%nat) (cells s) →
  analyze_all_cells method s = (Ok recs, s') →
  results s' = recs
  ∧ recs = map (λ r, to_dict (store s' !!! r)) (cells s').
Proof.
  intros Hvalid Hrun.
  destruct (analyze_all_cells_inv _ _ _ _ Hvalid Hrun)
    as (img & Himg & Hne & Hred).
  rewrite (analyze_all_cells_run img method s Himg Hne Hred) in Hrun.
  injection Hrun as <- <-. simpl. split; [reflexivity |].
  apply map_ext_in. intros r Hr.
  rewrite Forall_forall in Hvalid.
  apply list_elem_of_In in Hr. specialize (Hvalid r Hr).
  f_equal. symmetry. apply list_lookup_total_correct.
  rewrite analyzed_store_lookup, decide_True by exact Hr.
  rewrite (list_lookup_lookup_total_lt _ _ Hvalid). reflexivity.
Qed.

(** X4.  Analysis is idempotent: when [analyze_all_cells] returns,
    calling it again with the same method returns the same records and
    leaves the state as it is. *)
Theorem analysis_idempotent method s recs s' :
  Forall (λ r : nat, (r < length (store s))%nat) (cells s) →
  analyze_all_cells method s = (Ok recs, s') →
  analyze_all_cells method s' = (Ok recs, s').
Proof.
  intros Hvalid Hrun.
  destruct (analyze_all_cells_inv _ _ _ _ Hvalid Hrun)
    as (img & Himg & Hne & Hred).
  rewrite (analyze_all_cells_run img method s Himg Hne Hred) in Hrun.
  injection Hrun as <- <-.
  rewrite (analyze_all_cells_run img method); simpl;
    [| exact Himg | exact Hne | apply reducible_analyzed_store, Hred].
  rewrite analyzed_store_idem.
  assert (Hrecs :
    map (λ r, to_dict (analyzed img method
                 (analyzed_store img method (cells s) (store s) !!! r)))
        (cells s)
    = map (λ r, to_dict (analyzed img method (store s !!! r))) (cells s)).
  { apply map_ext_in. intros r Hr.
    rewrite Forall_forall in Hvalid.
    apply list_elem_of_In in Hr. specialize (Hvalid r Hr).
    f_equal.
    rewrite (list_lookup_total_correct _ _
               (analyzed img method (store s !!! r))).
    - apply analyzed_idem.
    - rewrite analyzed_store_lookup, decide_True by exact Hr.
      rewrite (list_lookup_lookup_total_lt _ _ Hvalid). reflexivity. }
  rewrite Hrecs. reflexivity.
Qed.

(** X5.  With an image loaded and [self.cells] not empty,
    [analyze_all_cells] with ["mean"] or ["median"] always returns, one
    record per cell, whatever the cells are: off the grid, of size zero
    or negative. *)
Theorem mean_and_median_always_return method s img :
  image s = Some img →
  cells s ≠ [] →
  Forall (λ r : nat, (r < length (store s))%nat) (cells s) →
  method = "mean" ∨ method = "median" →
  ∃ recs s',
    analyze_all_cells method s = (Ok recs, s')
    ∧ length recs = length (cells s).
Proof.
  intros Himg Hne Hvalid Hmethod.
  assert (Hred : reducible img method (store s) (cells s)).
  { unfold reducible. eapply Forall_impl; [exact Hvalid |]. simpl.
    intros r [c Hc]%lookup_lt_is_Some. exists c. split; [exact Hc |].
    apply reduce_recognized; [| right; exact Hmethod].
    destruct Hmethod as [-> | ->]; [left | right; left]; reflexivity. }
  eexists _, _. split; [apply (analyze_all_cells_run img), Hred; assumption |].
  apply length_map.
Qed.

End AnalysisState.

(** ** The cells of the analyzer stay distinct allocated objects *)

Lemma wf_init : wf init.
Proof. split; constructor. Qed.

Lemma wf_frame s s' :
  cells s' = cells s →
  length (store s') = length (store s) →
  wf s → wf s'.
Proof.
  intros Hcells Hlen [Hnd Hvalid]. unfold wf. rewrite Hcells, Hlen.
  split; assumption.
Qed.

Lemma seq_fresh (n k : nat) :
  Forall (λ r : nat, (r < n + k)%nat) (seq n k)
  ∧ ∀ r : nat, (r < n)%nat → r ∉ seq n k.
Proof.
  split.
  - apply Forall_forall. intros r [Hr1 Hr2]%elem_of_seq. lia.
  - intros r Hr [Hr1 Hr2]%elem_of_seq. lia.
Qed.

Lemma wf_allocated new s : wf s → wf (allocated true new s).
Proof.
  intros [Hnd Hvalid]. destruct (seq_fresh (length (store s)) (length new))
    as [Hnew Hfresh].
  split; simpl.
  - apply NoDup_app. split; [exact Hnd |]. split; [| apply NoDup_seq].
    intros r Hr. apply Hfresh. rewrite Forall_forall in Hvalid.
    apply Hvalid, Hr.
  - rewrite length_app. apply Forall_app. split; [| exact Hnew].
    eapply Forall_impl; [exact Hvalid |]. simpl. lia.
Qed.

Lemma add_cell_manual_run x0 y0 w h cell_id s :
  add_cell_manual x0 y0 w h cell_id s
  = (Ok (length (store s)),
     allocated true
       [Cell_init x0 y0 w h
          (Some match cell_id with
                | None => "cell_" +:+ str (Z.of_nat (length (cells s)) + 1)
                | Some c => c
                end)] s).
Proof. reflexivity. Qed.

Section Invariant.
Context `{OpenCV} `{Np.Release}.

Lemma analyze_all_cells_geometry method s :
  cells (snd (analyze_all_cells method s)) = cells s
  ∧ same_geometry (store s) (store (snd (analyze_all_cells method s))).
Proof.
  rewrite analyze_all_cells_unfold.
  pose proof (analyze_loop_frame method (cells s) [] s) as Hloop.
  destruct (cells s) as [| cell l] eqn:Hcells.
  - simpl. split; [exact Hcells | apply same_geometry_refl].
  - rewrite <- Hcells in *.
    destruct (foldM (analyze_step method) [] (cells s) s)
      as [[recs | e] s1]; simpl in *;
      destruct Hloop as (_ & Hcs & _ & Hgeo); split; assumption.
Qed.

(** X6.  A fresh analyzer satisfies, and every method of the analyzer
    keeps, whatever its outcome: the entries of [self.cells] are
    pairwise distinct [Cell] objects, each of them allocated.  So no
    cell is ever analysed twice in one pass. *)
Theorem cells_stay_distinct s :
  wf init
  ∧ (wf s →
     (∀ min_area threshold_method,
        wf (snd (detect_cells_automatically min_area threshold_method s)))
     ∧ (∀ rows cols margin spacing,
          wf (snd (add_cells_grid rows cols margin spacing s)))
     ∧ (∀ x y width height cell_id,
          wf (snd (add_cell_manual x y width height cell_id s)))
     ∧ (∀ cell method, wf (snd (calculate_brightness cell method s)))
     ∧ (∀ method, wf (snd (analyze_all_cells method s)))).
Proof.
  split; [exact wf_init |]. intros Hwf.
  split; [| split; [| split; [| split]]].
  - intros min_area threshold_method.
    destruct (image s) as [img |] eqn:Himg.
    + rewrite (detect_run _ _ _ _ Himg). simpl.
      destruct (seq_fresh (length (store s))
                  (length (map detected_cell
                     (List.filter (keeps min_area)
                        (enumerate (findContours
                           (binarize img threshold_method)
                           RETR_EXTERNAL CHAIN_APPROX_SIMPLE))))))
        as [Hnew _].
      split; simpl; [apply NoDup_seq |].
      rewrite length_app. exact Hnew.
    + rewrite (detect_no_image _ _ _ Himg). exact Hwf.
  - intros rows cols margin spacing.
    destruct (image s) as [img |] eqn:Himg.
    + destruct (decide (cols = 0 ∨ rows = 0)) as [Hzero | Hnz].
      * rewrite (add_cells_grid_zero _ _ _ _ _ _ Himg Hzero). exact Hwf.
      * rewrite (add_cells_grid_run _ _ _ _ _ _ Himg) by tauto.
        apply wf_allocated, Hwf.
    + rewrite (add_cells_grid_no_image _ _ _ _ _ Himg). exact Hwf.
  - intros x0 y0 w h cell_id. rewrite add_cell_manual_run.
    apply wf_allocated, Hwf.
  - intros cell method.
    destruct (calculate_brightness_frame cell method s)
      as (_ & Hcells & _ & Hgeo).
    eapply wf_frame; [exact Hcells | | exact Hwf].
    symmetry. eapply Forall2_length, Hgeo.
  - intros method.
    destruct (analyze_all_cells_geometry method s) as [Hcells Hgeo].
    eapply wf_frame; [exact Hcells | | exact Hwf].
    symmetry. eapply Forall2_length, Hgeo.
Qed.

End Invariant.

(** ** Identifiers *)

Lemma str_inj i j : str i = str j → i = j.
Proof.
  assert (Hnonnil : ∀ z, Z.to_int z ≠ Decimal.Pos Decimal.Nil
                         ∧ Z.to_int z ≠ Decimal.Neg Decimal.Nil).
  { intros [| p | p]; simpl; split; try discriminate;
      intros [= Hp]; exact (DecimalPos.Unsigned.to_uint_nonnil p Hp). }
  unfold str. intros Heq.
  apply (f_equal NilZero.int_of_string) in Heq.
  destruct (Hnonnil i) as [Hi1 Hi2], (Hnonnil j) as [Hj1 Hj2].
  rewrite !NilZero.isi in Heq by assumption.
  injection Heq as Heq. apply to_int_inj, Heq.
Qed.

Lemma string_of_uint_free d :
  free_of "_"%char (NilEmpty.string_of_uint d).
Proof.
  induction d; simpl; try exact I; (split; [discriminate | assumption]).
Qed.

Lemma str_free z : free_of "_"%char (str z).
Proof.
  assert (Hu : ∀ d, free_of "_"%char (NilZero.string_of_uint d)).
  { intros d. unfold NilZero.string_of_uint.
    destruct d; try apply string_of_uint_free.
    simpl. split; [discriminate | exact I]. }
  unfold str. destruct (Z.to_int z) as [d | d]; simpl.
  - apply Hu.
  - split; [discriminate | apply Hu].
Qed.

(** Two strings cut at their first underscore agree part by part. *)
Lemma append_underscore_inj s1 s2 t1 t2 :
  free_of "_"%char s1 → free_of "_"%char s2 →
  s1 +:+ String "_"%char t1 = s2 +:+ String "_"%char t2 →
  s1 = s2 ∧ t1 = t2.
Proof.
  revert s2. induction s1 as [| c1 s1 IH]; intros [| c2 s2] H1 H2 Heq;
    simpl in *.
  - injection Heq as ->. split; reflexivity.
  - injection Heq as <- _. destruct H2 as [H2 _]. contradiction.
  - injection Heq as -> _. destruct H1 as [H1 _]. contradiction.
  - injection Heq as -> Heq. destruct H1 as [_ H1], H2 as [_ H2].
    destruct (IH s2 H1 H2 Heq) as [-> ->]. split; reflexivity.
Qed.

(** The identifier of a grid cell determines its row and column. *)
Lemma grid_cell_id_inj margin spacing cw ch row1 col1 row2 col2 :
  cell_id (grid_cell margin spacing cw ch row1 col1)
  = cell_id (grid_cell margin spacing cw ch row2 col2) →
  row1 = row2 ∧ col1 = col2.
Proof.
  simpl. intros [= Heq].
  apply append_underscore_inj in Heq as [Hrow Hcol]; try apply str_free.
  injection Hcol as Hcol.
  apply str_inj in Hrow, Hcol. split; lia.
Qed.

(** X7.  The cells that one call of [add_cells_grid] returns carry
    pairwise different identifiers. *)
Theorem grid_ids_distinct s img rows cols margin spacing refs s' :
  image s = Some img →
  add_cells_grid rows cols margin spacing s = (Ok refs, s') →
  ∀ (i j : nat) ri rj ci cj,
    i ≠ j →
    refs !! i = Some ri → refs !! j = Some rj →
    store s' !! ri = Some ci → store s' !! rj = Some cj →
    cell_id ci ≠ cell_id cj.
Proof.
  intros Himg Hrun i j ri rj ci cj Hij Hri Hrj Hci Hcj Hid.
  destruct (decide (cols = 0 ∨ rows = 0)) as [Hzero | Hnz].
  { rewrite (add_cells_grid_zero _ _ _ _ _ _ Himg Hzero) in Hrun.
    discriminate. }
  rewrite (add_cells_grid_run _ _ _ _ _ _ Himg) in Hrun by tauto.
  injection Hrun as <- <-.
  rewrite (allocated_lookup _ _ _ _ _ Hri) in Hci.
  rewrite (allocated_lookup _ _ _ _ _ Hrj) in Hcj.
  apply lookup_seq in Hri as [_ Hi], Hrj as [_ Hj].
  rewrite grid_cells_length in Hi, Hj.
  destruct (grid_index _ _ _ Hi) as (row1 & col1 & Hr1 & Hc1 & ->).
  destruct (grid_index _ _ _ Hj) as (row2 & col2 & Hr2 & Hc2 & ->).
  rewrite grid_cells_lookup in Hci, Hcj by assumption.
  injection Hci as <-. injection Hcj as <-.
  apply grid_cell_id_inj in Hid as [Hrow Hcol].
  apply Hij. f_equal; [f_equal |]; lia.
Qed.

Lemma filter_fst_NoDup {A} (p : nat * A → bool) (l : list (nat * A)) :
  NoDup (map fst l) → NoDup (map fst (List.filter p l)).
Proof.
  induction l as [| a l IH]; simpl; [intros; constructor |].
  intros [Ha Hl]%NoDup_cons. destruct (p a); simpl; [| apply IH, Hl].
  apply NoDup_cons. split; [| apply IH, Hl].
  intros Hin. apply Ha.
  apply list_elem_of_fmap in Hin as (b & -> & Hb).
  apply list_elem_of_In, filter_In in Hb as [Hb _].
  apply list_elem_of_fmap. exists b. split; [reflexivity |].
  apply list_elem_of_In, Hb.
Qed.

Lemma enumerate_fst {A} (l : list A) :
  map fst (enumerate l) = seq 0 (length l).
Proof. unfold enumerate. apply fst_zip. rewrite length_seq. lia. Qed.

(** Reading the new cells through the references of an allocation. *)
Lemma allocated_read {B} (f : Cell → B) track new s :
  map (λ r, f (store (allocated track new s) !!! r))
      (seq (length (store s)) (length new))
  = map f new.
Proof.
  apply list_eq. intros i. rewrite !list_lookup_fmap.
  destruct (new !! i) as [c |] eqn:Hc.
  - rewrite lookup_seq_lt by (eapply lookup_lt_Some, Hc). simpl. f_equal.
    f_equal. apply list_lookup_total_correct.
    rewrite lookup_app_r by lia.
    replace (length (store s) + i - length (store s))%nat with i by lia.
    exact Hc.
  - rewrite lookup_seq_ge by (eapply lookup_ge_None, Hc). reflexivity.
Qed.

Section DetectedIdentifiers.
Context `{OpenCV}.

Lemma detected_cell_id (ic : nat * Contour) :
  cell_id (detected_cell ic)
  = Some ("cell_" +:+ str (Z.of_nat (fst ic) + 1)).
Proof.
  unfold detected_cell.
  destruct (boundingRect (snd ic)) as [[[bx by_] bw] bh]. reflexivity.
Qed.

(** X8.  After [detect_cells_automatically] has returned, the cells of
    [self.cells] carry pairwise different identifiers. *)
Theorem detected_ids_distinct s min_area threshold_method refs s' :
  detect_cells_automatically min_area threshold_method s = (Ok refs, s') →
  NoDup (map (λ r, cell_id (store s' !!! r)) (cells s')).
Proof.
  intros Hrun.
  destruct (image s) as [img |] eqn:Himg;
    [| rewrite (detect_no_image _ _ _ Himg) in Hrun; discriminate].
  rewrite (detect_run _ _ _ _ Himg) in Hrun. injection Hrun as <- <-.
  set (found := enumerate (findContours (binarize img threshold_method)
                             RETR_EXTERNAL CHAIN_APPROX_SIMPLE)).
  set (kept := List.filter (keeps min_area) found).
  pose proof (allocated_read cell_id false (map detected_cell kept) s) as Hread.
  simpl in Hread |- *. rewrite Hread, map_map.
  assert (Hids : map (λ ic, cell_id (detected_cell ic)) kept
                 = map (λ i : nat, Some ("cell_" +:+ str (Z.of_nat i + 1)))
                       (map fst kept)).
  { rewrite map_map. apply map_ext. intros ic. apply detected_cell_id. }
  rewrite Hids.
  assert (Hinj : Inj eq eq
            (λ i : nat, Some ("cell_" +:+ str (Z.of_nat i + 1))))
    by (intros i j [= Hij]; apply str_inj in Hij; lia).
  apply (NoDup_fmap_2 _).
  apply filter_fst_NoDup. unfold found. rewrite enumerate_fst.
    apply NoDup_seq.
Qed.

End DetectedIdentifiers.

(** X9.  As long as cells are only added by [add_cell_manual] without an
    identifier, starting from a fresh analyzer, the cells of
    [self.cells] are named [cell_1], [cell_2], ... in order, and so
    carry pairwise different identifiers. *)
Theorem manual_default_ids s :
  default_named init
  ∧ (default_named s →
     (∀ x y width height,
        default_named (snd (add_cell_manual x y width height None s)))
     ∧ (∀ (i j ri rj : nat), i ≠ j →
          cells s !! i = Some ri → cells s !! j = Some rj →
          cell_id <$> store s !! ri ≠ cell_id <$> store s !! rj)).
Proof.
  split; [intros i r Hi; discriminate |].
  intros Hnamed. split.
  - intros x0 y0 w h i r. rewrite add_cell_manual_run. simpl.
    intros Hi.
    destruct (decide (i < length (cells s))%nat) as [Hlt | Hge].
    + rewrite lookup_app_l in Hi by exact Hlt.
      specialize (Hnamed i r Hi).
      assert (Hr : (r < length (store s))%nat).
      { apply lookup_lt_is_Some.
        destruct (store s !! r); [eauto | discriminate]. }
      rewrite lookup_app_l by exact Hr. exact Hnamed.
    + rewrite lookup_app_r in Hi by lia.
      destruct (i - length (cells s))%nat as [| k] eqn:Hk;
        [| simpl in Hi; discriminate].
      simpl in Hi. injection Hi as <-.
      rewrite lookup_app_r by lia.
      replace (length (store s) - length (store s))%nat with 0%nat by lia.
      simpl. do 4 f_equal. lia.
  - intros i j ri rj Hij Hi Hj Heq.
    rewrite (Hnamed i ri Hi), (Hnamed j rj Hj) in Heq.
    injection Heq as Heq. apply str_inj in Heq. lia.
Qed.

(** ** The grid partition inside the image *)

(** Along one axis of length [len], with [count >= 1] cells between two
    margins that fit: every cell lies between the margins, and after the
    last cell fewer than [count] pixels are left before the far margin. *)
Lemma grid_axis len count margin spacing (k : Z) :
  1 ≤ count → 0 ≤ margin → 0 ≤ spacing →
  2 * margin + (count - 1) * spacing ≤ len →
  0 ≤ k < count →
  let size := (len - 2 * margin - (count - 1) * spacing) / count in
  let offset := margin + k * (size + spacing) in
  0 ≤ size
  ∧ margin ≤ offset
  ∧ offset + size ≤ len - margin
  ∧ (k = count - 1 → len - margin - (offset + size) < count).
Proof.
  intros Hcount Hmargin Hspacing Hfit Hk size offset.
  pose proof (Z.div_mod (len - 2 * margin - (count - 1) * spacing) count
                ltac:(lia)) as Hdm.
  pose proof (Z.mod_pos_bound (len - 2 * margin - (count - 1) * spacing) count
                ltac:(lia)) as Hmod.
  fold size in Hdm.
  assert (Hsize : 0 ≤ size) by (apply Z.div_pos; lia).
  assert (Hstep : 0 ≤ k * (size + spacing)) by nia.
  assert (Hlast : k * (size + spacing) ≤ (count - 1) * (size + spacing))
    by nia.
  unfold offset. repeat split; lia.
Qed.

(** X10.  When the margins and the spacing fit in the image
    ([2*margin + (count-1)*spacing] is at most the image size on either
    axis), every cell that [add_cells_grid] returns has a width and a
    height of at least zero and lies inside the image, between the
    margins; and the cells of the last column (row) end fewer than
    [cols] ([rows]) pixels before the right (bottom) margin. *)
Theorem grid_cells_inside_image s img rows cols margin spacing refs s' :
  image s = Some img →
  1 ≤ rows → 1 ≤ cols → 0 ≤ margin → 0 ≤ spacing →
  2 * margin + (cols - 1) * spacing ≤ snd (shape img) →
  2 * margin + (rows - 1) * spacing ≤ fst (shape img) →
  add_cells_grid rows cols margin spacing s = (Ok refs, s') →
  ∀ (row col : nat), Z.of_nat row < rows → Z.of_nat col < cols →
    ∃ r c,
      refs !! (row * Z.to_nat cols + col)%nat = Some r
      ∧ store s' !! r = Some c
      ∧ 0 ≤ width c ∧ 0 ≤ height c
      ∧ margin ≤ x c ∧ x c + width c ≤ snd (shape img) - margin
      ∧ margin ≤ y c ∧ y c + height c ≤ fst (shape img) - margin
      ∧ (Z.of_nat col = cols - 1 →
           snd (shape img) - margin - (x c + width c) < cols)
      ∧ (Z.of_nat row = rows - 1 →
           fst (shape img) - margin - (y c + height c) < rows).
Proof.
  intros Himg Hrows Hcols Hmargin Hspacing Hfitx Hfity Hrun row col Hrow Hcol.
  rewrite (add_cells_grid_run _ _ _ _ _ _ Himg) in Hrun by lia.
  injection Hrun as <- <-.
  set (cw := (snd (shape img) - 2 * margin - (cols - 1) * spacing) / cols).
  set (ch := (fst (shape img) - 2 * margin - (rows - 1) * spacing) / rows).
  set (new := grid_cells margin spacing cw ch rows cols).
  assert (Hi : (row * Z.to_nat cols + col < length new)%nat)
    by (unfold new; rewrite grid_cells_length; nia).
  pose proof (lookup_seq_lt (length (store s)) _ _ Hi) as Href.
  exists (length (store s) + (row * Z.to_nat cols + col))%nat,
         (grid_cell margin spacing cw ch (Z.of_nat row) (Z.of_nat col)).
  split; [exact Href |].
  split; [rewrite (allocated_lookup _ _ _ _ _ Href);
          apply grid_cells_lookup; lia |].
  destruct (grid_axis (snd (shape img)) cols margin spacing (Z.of_nat col))
    as (Hw & Hx0 & Hx1 & Hxl); try lia.
  destruct (grid_axis (fst (shape img)) rows margin spacing (Z.of_nat row))
    as (Hh & Hy0 & Hy1 & Hyl); try lia.
  simpl. repeat split; assumption.
Qed.

(** ** The grid partition followed by the analysis *)

Section GridAnalysis.
Context `{Np.Release}.

Lemma reduce_number g method b :
  Np.ravel g ≠ [] → reduce g method = Ok b → ∃ q, b = Fin q.
Proof.
  intros Hne. unfold reduce.
  destruct (Np.ravel g) as [| v l] eqn:Hg; [contradiction |].
  destruct (String.eqb method "mean"); [intros [= <-]; eexists; reflexivity |].
  destruct (String.eqb method "median").
  { intros [= <-]. unfold Np.median.
    destruct (length (v :: l)) as [| n] eqn:Hn; [discriminate |].
    destruct (Nat.even (S n)); eexists; reflexivity. }
  destruct (String.eqb method "max"); [intros [= <-]; eexists; reflexivity |].
  destruct (String.eqb method "percentile"); [| discriminate].
  unfold Np.percentile.
  destruct (length (v :: l)) as [| n] eqn:Hn; [discriminate |].
  intros [= <-]. eexists; reflexivity.
Qed.

(** A grid cell of positive size has samples. *)
Lemma grid_cell_has_samples img rows cols margin spacing (row col : nat) :
  rectangular img →
  1 ≤ rows → 1 ≤ cols → 0 ≤ margin → 0 ≤ spacing →
  Z.of_nat row < rows → Z.of_nat col < cols →
  let cw := (snd (shape img) - 2 * margin - (cols - 1) * spacing) / cols in
  let ch := (fst (shape img) - 2 * margin - (rows - 1) * spacing) / rows in
  0 < cw → 0 < ch →
  Np.ravel (cell_region img
              (grid_cell margin spacing cw ch (Z.of_nat row) (Z.of_nat col)))
  ≠ [].
Proof.
  intros Hrect Hrows Hcols Hmargin Hspacing Hrow Hcol cw ch Hcw Hch.
  assert (Hfitx : 2 * margin + (cols - 1) * spacing ≤ snd (shape img)).
  { destruct (Z.le_gt_cases (2 * margin + (cols - 1) * spacing)
                            (snd (shape img))) as [Hle | Hgt]; [exact Hle |].
    assert (cw < 0) by (apply Z.div_lt_upper_bound; lia). lia. }
  assert (Hfity : 2 * margin + (rows - 1) * spacing ≤ fst (shape img)).
  { destruct (Z.le_gt_cases (2 * margin + (rows - 1) * spacing)
                            (fst (shape img))) as [Hle | Hgt]; [exact Hle |].
    assert (ch < 0) by (apply Z.div_lt_upper_bound; lia). lia. }
  destruct (grid_axis (snd (shape img)) cols margin spacing (Z.of_nat col))
    as (_ & Hx0 & Hx1 & _); try lia.
  destruct (grid_axis (fst (shape img)) rows margin spacing (Z.of_nat row))
    as (_ & Hy0 & Hy1 & _); try lia.
  fold cw in Hx0, Hx1. fold ch in Hy0, Hy1.
  destruct (cell_region_nonempty img
              (grid_cell margin spacing cw ch (Z.of_nat row) (Z.of_nat col)))
    as (v & l & ->);
    try assumption; try (unfold shape in *; simpl in *; lia).
  discriminate.
Qed.

(** X11.  On an analyzer with a rectangular image loaded and no cell
    yet, take [rows >= 1], [cols >= 1], [margin >= 0] and
    [spacing >= 0] such that the cell width and the cell height that
    [add_cells_grid] computes from them are positive.  Then
    [add_cells_grid(rows, cols, margin, spacing)] followed by the
    analysis with any recognized method returns: exactly [rows * cols]
    records, row by row, the one at position [row * cols + col] named
    [cell_r{row+1}_c{col+1}] and holding a number as brightness. *)
Theorem grid_then_analysis s img rows cols margin spacing method :
  image s = Some img → rectangular img → cells s = [] →
  1 ≤ rows → 1 ≤ cols → 0 ≤ margin → 0 ≤ spacing →
  0 < (snd (shape img) - 2 * margin - (cols - 1) * spacing) / cols →
  0 < (fst (shape img) - 2 * margin - (rows - 1) * spacing) / rows →
  recognized method →
  ∃ refs s1 recs s2,
    add_cells_grid rows cols margin spacing s = (Ok refs, s1)
    ∧ analyze_all_cells method s1 = (Ok recs, s2)
    ∧ Z.of_nat (length recs) = rows * cols
    ∧ ∀ (row col : nat), Z.of_nat row < rows → Z.of_nat col < cols →
        ∃ rec q,
          recs !! (row * Z.to_nat cols + col)%nat = Some rec
          ∧ r_cell_id rec = Some ("cell_r" +:+ str (Z.of_nat row + 1)
                                  +:+ "_c" +:+ str (Z.of_nat col + 1))
          ∧ r_brightness rec = Fin q.
Proof.
  intros Himg Hrect Hcells Hrows Hcols Hmargin Hspacing Hcw Hch Hrec.
  set (cw := (snd (shape img) - 2 * margin - (cols - 1) * spacing) / cols)
    in *.
  set (ch := (fst (shape img) - 2 * margin - (rows - 1) * spacing) / rows)
    in *.
  set (new := grid_cells margin spacing cw ch rows cols).
  set (s1 := allocated true new s).
  assert (Hlen : length new = (Z.to_nat rows * Z.to_nat cols)%nat)
    by apply grid_cells_length.
  assert (Hcells1 : cells s1 = seq (length (store s)) (length new))
    by (simpl; rewrite Hcells; reflexivity).
  assert (Hat : ∀ row col : nat, Z.of_nat row < rows → Z.of_nat col < cols →
            new !! (row * Z.to_nat cols + col)%nat
            = Some (grid_cell margin spacing cw ch
                      (Z.of_nat row) (Z.of_nat col)))
    by (intros row col Hrow Hcol; apply grid_cells_lookup; lia).
  assert (Hred : reducible img method (store s1) (cells s1)).
  { rewrite Hcells1. apply Forall_forall. intros r [i Hi]%list_elem_of_lookup.
    unfold s1. rewrite (allocated_lookup true new s _ _ Hi).
    apply lookup_seq in Hi as [_ Hi]. rewrite Hlen in Hi.
    destruct (grid_index _ _ _ Hi) as (row & col & Hrow & Hcol & ->).
    eexists. split; [apply Hat; lia |].
    apply reduce_recognized; [exact Hrec |]. left.
    apply grid_cell_has_samples; try assumption; lia. }
  assert (Hne : cells s1 ≠ []).
  { rewrite Hcells1, Hlen.
    destruct (Z.to_nat rows * Z.to_nat cols)%nat eqn:Hn; [nia | discriminate]. }
  eexists _, s1, _, _.
  split; [apply (add_cells_grid_run s img); [exact Himg | lia | lia] |].
  split; [apply (analyze_all_cells_run img method s1 Himg Hne Hred) |].
  rewrite Hcells1.
  rewrite (allocated_read (λ c, to_dict (analyzed img method c)) true new s).
  split; [rewrite length_map, Hlen; lia |].
  intros row col Hrow Hcol.
  rewrite list_lookup_fmap, (Hat row col Hrow Hcol). simpl.
  pose proof (grid_cell_has_samples img rows cols margin spacing row col
                Hrect Hrows Hcols Hmargin Hspacing Hrow Hcol Hcw Hch) as Hsamples.
  fold cw ch in Hsamples.
  pose proof (reduce_recognized _ method Hrec (or_introl Hsamples)) as Hok.
  unfold analyzed.
  destruct (reduce (cell_region img
              (grid_cell margin spacing cw ch (Z.of_nat row) (Z.of_nat col)))
              method) as [b | e] eqn:Hb; [| contradiction].
  destruct (reduce_number _ _ _ Hsamples Hb) as [q ->].
  eexists _, q. split; [reflexivity |]. split; reflexivity.
Qed.

End GridAnalysis.

(** ** Batch processing *)

Section BatchProperties.
Context `{OpenCV} `{Np.Release} `{Export}.

Lemma grid_frame_length gp image_file :
  length (grid_frame gp image_file)
  = (Z.to_nat (gp_rows gp) * Z.to_nat (gp_cols gp))%nat.
Proof.
  destruct image_file as [name img]. unfold grid_frame.
  rewrite length_map. apply grid_cells_length.
Qed.

Lemma mean_reducible img (st : list Cell) (l : list nat) :
  Forall (λ r : nat, (r < length st)%nat) l →
  reducible img "mean" st l.
Proof.
  intros Hvalid. unfold reducible.
  eapply Forall_impl; [exact Hvalid |]. simpl.
  intros r [c Hc]%lookup_lt_is_Some. exists c. split; [exact Hc | exact I].
Qed.

Lemma grid_run gp img :
  1 ≤ gp_rows gp → 1 ≤ gp_cols gp →
  ∃ analyzer,
    (batch_detect "grid" (Some gp);; analyze_all_cells "mean")
      (mkAnalyzer [] (Some img) [] [])
    = (Ok (map fst (grid_frame gp ("", img))), analyzer).
Proof.
  intros Hrows Hcols.
  unfold batch_detect. simpl String.eqb. cbv iota.
  unfold mbind at 1, M_bind at 1, mbind at 1, M_bind at 1.
  rewrite (add_cells_grid_run _ img) by (try reflexivity; lia).
  cbv zeta.
  set (new := grid_cells _ _ _ _ _ _).
  set (s1 := allocated true new _).
  unfold mret, M_ret.
  assert (Hlen : length new = (Z.to_nat (gp_rows gp) * Z.to_nat (gp_cols gp))%nat)
    by apply grid_cells_length.
  assert (Hne : cells s1 ≠ []).
  { simpl. rewrite Hlen.
    destruct (Z.to_nat (gp_rows gp) * Z.to_nat (gp_cols gp))%nat eqn:Hn;
      [nia | discriminate]. }
  assert (Hred : reducible img "mean" (store s1) (cells s1)).
  { apply mean_reducible. simpl.
    apply Forall_forall. intros r [_ Hr]%elem_of_seq. simpl in Hr. lia. }
  assert (Hrecs :
    map (λ r, to_dict (analyzed img "mean" (store s1 !!! r))) (cells s1)
    = map (λ c, to_dict (analyzed img "mean" c)) new)
    by exact (allocated_read (λ c, to_dict (analyzed img "mean" c)) true new
                (mkAnalyzer [] (Some img) [] [])).
  rewrite (analyze_all_cells_run img "mean" s1 eq_refl Hne Hred).
  rewrite Hrecs. unfold grid_frame. rewrite map_map. simpl.
  eexists. reflexivity.
Qed.

Lemma process_image_grid gp image_file :
  1 ≤ gp_rows gp → 1 ≤ gp_cols gp →
  image_exports_return "grid" (Some gp) image_file →
  process_image "grid" (Some gp) image_file = Ok (grid_frame gp image_file).
Proof.
  intros Hrows Hcols Hexports. destruct image_file as [name img].
  unfold image_exports_return in Hexports. unfold process_image.
  destruct (grid_run gp img Hrows Hcols) as [analyzer Hrun].
  rewrite Hrun in Hexports |- *. destruct Hexports as [Hcsv Hdraw].
  cbv zeta. rewrite Hcsv, Hdraw.
  unfold grid_frame. rewrite !map_map. reflexivity.
Qed.

Lemma batch_loop_ok cell_detection grid_params
    (frame : string * IntensityGrid → list (ResultRecord * string))
    all_results image_files :
  Forall (λ f, process_image cell_detection grid_params f = Ok (frame f))
         image_files →
  batch_loop cell_detection grid_params all_results image_files
  = Ok (all_results ++ map frame image_files).
Proof.
  intros Hall. revert all_results.
  induction Hall as [| f files Hf _ IH]; intros all_results; simpl.
  - rewrite app_nil_r. reflexivity.
  - rewrite Hf, IH, <- app_assoc. reflexivity.
Qed.

Lemma batch_loop_raise cell_detection grid_params all_results pre f post e :
  Forall (λ f', is_ok (process_image cell_detection grid_params f')) pre →
  process_image cell_detection grid_params f = Raise e →
  batch_loop cell_detection grid_params all_results (pre ++ f :: post)
  = Raise e.
Proof.
  intros Hpre Hf. revert all_results.
  induction Hpre as [| f' pre Hf' _ IH]; intros all_results; simpl.
  - rewrite Hf. reflexivity.
  - destruct (process_image cell_detection grid_params f') as [df | e'];
      [apply IH | contradiction].
Qed.

(** X12.  Under the grid partition with [rows >= 1] and [cols >= 1], a
    batch over a non-empty list of image files, given with the images
    that [load_image] reads from them, returns when the file and
    plotting libraries raise on none of its exports: not [to_csv] on the
    results file of an image or on the combined file, and not the
    drawing in [visualize_cells].  It then yields exactly [rows * cols]
    records per image, image after image in the order of the list, each
    record tagged with the name of its image. *)
Theorem batch_grid_records gp image_files :
  1 ≤ gp_rows gp → 1 ≤ gp_cols gp →
  image_files ≠ [] →
  exports_return "grid" (Some gp) image_files →
  ∃ records,
    batch_process_images "grid" (Some gp) image_files = Ok records
    ∧ Z.of_nat (length records)
      = Z.of_nat (length image_files) * (gp_rows gp * gp_cols gp)
    ∧ ∀ (k j : nat) name img,
        image_files !! k = Some (name, img) →
        Z.of_nat j < gp_rows gp * gp_cols gp →
        ∃ record,
          records !! (k * (Z.to_nat (gp_rows gp) * Z.to_nat (gp_cols gp)) + j)%nat
          = Some (record, name).
Proof.
  intros Hrows Hcols Hne [Himages Hcombined].
  set (n := (Z.to_nat (gp_rows gp) * Z.to_nat (gp_cols gp))%nat).
  assert (Hloop : batch_loop "grid" (Some gp) [] image_files
                  = Ok (map (grid_frame gp) image_files)).
  { apply (batch_loop_ok "grid" (Some gp) (grid_frame gp) []).
    eapply Forall_impl; [exact Himages |]. simpl.
    intros f Hf. apply process_image_grid; assumption. }
  exists (flat_map (grid_frame gp) image_files).
  split; [| split].
  - unfold batch_process_images. rewrite Hloop in Hcombined |- *.
    unfold pd_concat in *. rewrite flat_map_concat_map.
    destruct image_files; [contradiction |]. cbn [map] in *.
    rewrite Hcombined. reflexivity.
  - rewrite (flat_map_constant_length (c := n))
      by (intros f _; apply grid_frame_length).
    unfold n. nia.
  - intros k j name img Hk Hj.
    rewrite (lookup_flat_map_block (grid_frame gp) n image_files k j
               (name, img)); [| apply grid_frame_length | unfold n; nia | exact Hk].
    assert (Hlt : (j < length (grid_frame gp (name, img)))%nat)
      by (rewrite grid_frame_length; nia).
    apply lookup_lt_is_Some in Hlt as [[record name'] Hrec].
    exists record. rewrite Hrec. do 2 f_equal.
    unfold grid_frame in Hrec. rewrite list_lookup_fmap in Hrec.
    destruct (grid_cells _ _ _ _ _ _ !! j); simpl in Hrec; congruence.
Qed.

(** X13.  A batch over no image file raises the [ValueError] of
    [pd.concat], and a batch stops at the first image whose processing
    raises, with that exception: the images before it do not count and
    those after it are not looked at. *)
Theorem batch_aborts cell_detection grid_params :
  batch_process_images cell_detection grid_params []
  = Raise (ValueError "No objects to concatenate")
  ∧ ∀ pre f post e,
      Forall (λ f', is_ok (process_image cell_detection grid_params f')) pre →
      process_image cell_detection grid_params f = Raise e →
      batch_process_images cell_detection grid_params (pre ++ f :: post)
      = Raise e.
Proof.
  split; [reflexivity |].
  intros pre f post e Hpre Hf. unfold batch_process_images.
  rewrite (batch_loop_raise _ _ _ _ _ _ _ Hpre Hf). reflexivity.
Qed.

Lemma filter_none {A} (p : A → bool) (l : list A) :
  Forall (λ a, p a = false) l → List.filter p l = [].
Proof.
  induction 1 as [| a l Ha _ IH]; simpl; [reflexivity |].
  rewrite Ha. exact IH.
Qed.

Lemma process_image_no_detection cell_detection grid_params image_file :
  cell_detection ≠ "auto" →
  cell_detection ≠ "grid" ∨ grid_params = None →
  process_image cell_detection grid_params image_file = Raise no_cells.
Proof.
  intros Hauto Hgrid. destruct image_file as [name img].
  unfold process_image, batch_detect.
  apply String.eqb_neq in Hauto. rewrite Hauto.
  destruct Hgrid as [Hgrid | ->].
  - apply String.eqb_neq in Hgrid. rewrite Hgrid. reflexivity.
  - destruct (String.eqb cell_detection "grid"); reflexivity.
Qed.

Lemma process_image_nothing_detected grid_params name img :
  Forall (λ contour, (contourArea contour < 100)%Q)
         (findContours (binarize img "otsu") RETR_EXTERNAL
                       CHAIN_APPROX_SIMPLE) →
  process_image "auto" grid_params (name, img) = Raise no_cells.
Proof.
  intros Hsmall.
  unfold process_image, batch_detect. simpl String.eqb. cbv iota.
  unfold mbind at 1, M_bind at 1, mbind at 1, M_bind at 1.
  rewrite (detect_run _ img) by reflexivity. cbv zeta.
  rewrite filter_none.
  - reflexivity.
  - apply Forall_forall. intros [i contour] Hin.
    apply enumerate_elem in Hin.
    rewrite Forall_forall in Hsmall.
    specialize (Hsmall contour (list_elem_of_lookup_2 _ _ _ Hin)).
    unfold keeps. simpl.
    destruct (Qle_bool (inject_Z 100) (contourArea contour)) eqn:Hle;
      [| reflexivity].
    apply Qle_bool_iff in Hle. change (inject_Z 100) with 100%Q in Hle.
    exfalso. apply (Qlt_not_le _ _ Hsmall Hle).
Qed.

(** X14.  An image on which no cell gets defined stops the batch with
    the "No cells defined" [ValueError]: so it is for every image when
    [cell_detection] is neither ["auto"] nor ["grid"], or is ["grid"]
    without [grid_params]; and, under ["auto"], for an image none of
    whose contours has an area of at least 100. *)
Theorem batch_without_cells cell_detection grid_params pre name img post :
  Forall (λ f', is_ok (process_image cell_detection grid_params f')) pre →
  (cell_detection ≠ "auto"
   ∧ (cell_detection ≠ "grid" ∨ grid_params = None))
  ∨ (cell_detection = "auto"
     ∧ Forall (λ contour, (contourArea contour < 100)%Q)
              (findContours (binarize img "otsu") RETR_EXTERNAL
                            CHAIN_APPROX_SIMPLE)) →
  batch_process_images cell_detection grid_params
    (pre ++ (name, img) :: post)
  = Raise no_cells.
Proof.
  intros Hpre Hcase. unfold batch_process_images.
  rewrite (batch_loop_raise _ _ _ pre (name, img) post no_cells Hpre);
    [reflexivity |].
  destruct Hcase as [[Hauto Hgrid] | [-> Hsmall]].
  - apply process_image_no_detection; assumption.
  - apply process_image_nothing_detected, Hsmall.
Qed.

End BatchProperties.

(** ** Regions that start left of or above the grid *)

(** A slice whose start is negative, but not beyond the length, starts
    that far from the end. *)
Lemma slice_from_end {A} (l : list A) start stop :
  - Z.of_nat (length l) ≤ start → start < 0 →
  slice (Z.of_nat (length l)) start stop l
  = slice (Z.of_nat (length l)) (Z.of_nat (length l) + start) stop l.
Proof.
  intros Hlo Hneg. unfold slice. f_equal; [f_equal; f_equal | f_equal];
    unfold adjust_index;
    repeat match goal with
           | |- context [?a <? ?b] => destruct (Z.ltb_spec a b)
           | |- context [?a <=? ?b] => destruct (Z.leb_spec a b)
           end; lia.
Qed.

(** X15.  A region that starts left of the grid, by no more than the
    width of the grid, is not cut to its overlap with the grid: its
    columns are counted from the right edge.  The extracted array holds
    the columns from [img_width + x] up to [x + width] (at most up to
    the right edge), so it is empty whenever [x + width <= img_width + x],
    that is whenever the region is not wider than the grid. *)
Theorem cell_region_left_of_grid img c :
  rectangular img →
  - snd (shape img) ≤ x c → x c < 0 → 0 ≤ x c + width c →
  0 ≤ y c → 0 ≤ y c + height c →
  cell_region img c
  = map (λ r, map (pixel img r)
                  (zrange (snd (shape img) + x c)
                          (Z.min (snd (shape img)) (x c + width c))))
        (zrange (Z.max 0 (y c)) (Z.min (fst (shape img)) (y c + height c)))
  ∧ (width c ≤ snd (shape img) → Np.ravel (cell_region img c) = []).
Proof.
  intros Hrect Hlo Hneg Hxw Hy Hyh.
  assert (Hcut : cell_region img c
    = map (λ r, map (pixel img r)
                    (zrange (snd (shape img) + x c)
                            (Z.min (snd (shape img)) (x c + width c))))
          (zrange (Z.max 0 (y c))
                  (Z.min (fst (shape img)) (y c + height c)))).
  { unfold cell_region, Np.slice2. unfold shape at 2. simpl fst.
    rewrite (slice_nonneg [] img) by assumption.
    rewrite map_map. apply map_ext_in. intros r Hr.
    apply list_elem_of_In, list_elem_of_lookup in Hr as [i Hi].
    apply zrange_lookup in Hi as [-> Hi].
    assert (Hrow : nth (Z.to_nat (Z.max 0 (y c) + Z.of_nat i)) img [] ∈ img).
    { apply list_elem_of_In, nth_In. unfold shape in Hi. simpl in Hi. lia. }
    pose proof (rectangular_row _ _ Hrect Hrow) as Hlen.
    rewrite <- Hlen in *.
    rewrite slice_from_end by assumption.
    rewrite (slice_nonneg 0) by lia.
    rewrite (Z.max_r 0 (_ + x c)) by lia. reflexivity. }
  split; [exact Hcut |].
  intros Hw. rewrite Hcut. unfold Np.ravel.
  apply concat_nil_Forall, List.Forall_forall. intros row Hin.
  apply in_map_iff in Hin as (r & <- & _).
  unfold zrange.
  replace (Z.to_nat (Z.min (snd (shape img)) (x c + width c)
                     - (snd (shape img) + x c))) with 0%nat by lia.
  reflexivity.
Qed.

(** * Further concrete runs *)

Lemma brightness_within_sample_range_witness :
  (inject_Z 0 <= 20 # 3)%Q ∧ (20 # 3 <= inject_Z 10)%Q.
Proof.
  apply (@brightness_within_sample_range release_nan strip [[0; 10; 10]]
           0%nat (Cell_init 0 0 3 1 (Some "cell_1")) 0 10 "mean"
           (Fin (20 # 3)));
    [reflexivity | reflexivity | repeat (constructor; try lia)
     | intros Hm; discriminate Hm | reflexivity].
Defined.

Lemma max_percentile_median_order_witness :
  ∃ mx p md,
    fst (@calculate_brightness release_nan 0%nat "max" strip) = Ok (Fin mx)
    ∧ fst (@calculate_brightness release_nan 0%nat "percentile" strip)
      = Ok (Fin p)
    ∧ fst (@calculate_brightness release_nan 0%nat "median" strip)
      = Ok (Fin md)
    ∧ (md <= p)%Q ∧ (p <= mx)%Q.
Proof.
  apply (@max_percentile_median_order release_nan strip [[0; 10; 10]] 0%nat
           (Cell_init 0 0 3 1 (Some "cell_1")));
    [reflexivity | reflexivity | vm_compute; discriminate].
Defined.

Lemma analysis_records_match_cells_witness :
  results strip_analyzed = strip_records
  ∧ strip_records
    = map (λ r, to_dict (store strip_analyzed !!! r)) (cells strip_analyzed).
Proof.
  apply (@analysis_records_match_cells release_nan "mean" strip);
    [repeat constructor | vm_compute; reflexivity].
Defined.

Lemma analysis_idempotent_witness :
  @analyze_all_cells release_nan "mean" strip_analyzed
  = (Ok strip_records, strip_analyzed).
Proof.
  apply (@analysis_idempotent release_nan "mean" strip);
    [repeat constructor | vm_compute; reflexivity].
Defined.

Lemma mean_and_median_always_return_witness :
  ∃ recs s',
    @analyze_all_cells release_nan "median" sliver = (Ok recs, s')
    ∧ length recs = length (cells sliver).
Proof.
  apply (@mean_and_median_always_return release_nan "median" sliver [[7]]);
    [reflexivity | discriminate
     | repeat (constructor; try (simpl; lia)) | right; reflexivity].
Defined.

Lemma cells_stay_distinct_witness :
  wf (snd (add_cells_grid 1 2 0 0 sliver))
  ∧ wf (snd (@analyze_all_cells release_nan "max" sliver)).
Proof.
  assert (Hwf : wf sliver).
  { split; [exact (NoDup_seq 0 2) |].
    repeat (constructor; try (simpl; lia)). }
  destruct (proj2 (@cells_stay_distinct (stub_cv three_blobs) release_nan
                     sliver) Hwf)
    as (_ & Hgrid & _ & _ & Hanalyze).
  split; [apply Hgrid | apply Hanalyze].
Defined.

Lemma grid_ids_distinct_witness :
  Some "cell_r1_c1"%string ≠ Some "cell_r1_c2"%string.
Proof.
  apply (grid_ids_distinct dot [[7]] 1 2 0 0 [0%nat; 1%nat] sliver
           eq_refl eq_refl 0%nat 1%nat 0%nat 1%nat
           (Cell_init 0 0 0 1 (Some "cell_r1_c1"))
           (Cell_init 0 0 0 1 (Some "cell_r1_c2")));
    [discriminate | reflexivity ..].
Defined.

Lemma detected_ids_distinct_witness :
  NoDup (map (λ r, cell_id (store blobs_detected !!! r))
             (cells blobs_detected)).
Proof.
  apply (@detected_ids_distinct (stub_cv three_blobs) dot 100 "otsu"
           [0%nat; 1%nat] blobs_detected).
  vm_compute. reflexivity.
Defined.

Lemma manual_default_ids_witness :
  default_named (snd (add_cell_manual 1 2 3 4 None init)).
Proof.
  apply (proj1 (proj2 (manual_default_ids init)
                  (proj1 (manual_default_ids init)))).
Defined.

Lemma grid_cells_inside_image_witness :
  ∃ r c,
    cells plate_cells !! 5%nat = Some r
    ∧ store plate_cells !! r = Some c
    ∧ 0 ≤ width c ∧ 0 ≤ height c
    ∧ 0 ≤ x c ∧ x c + width c ≤ 3 - 0
    ∧ 0 ≤ y c ∧ y c + height c ≤ 2 - 0.
Proof.
  destruct (grid_cells_inside_image plate [[0; 10; 10]; [1; 2; 3]] 2 3 0 0
              (cells plate_cells) plate_cells)
    with (row := 1%nat) (col := 2%nat)
    as (r & c & Hr & Hc & Hw & Hh & Hx0 & Hx1 & Hy0 & Hy1 & _);
    [reflexivity | lia | lia | lia | lia | vm_compute; discriminate
     | vm_compute; discriminate | vm_compute; reflexivity | lia | lia |].
  exists r, c. repeat split; assumption.
Defined.

Lemma grid_then_analysis_witness :
  ∃ refs s1 recs s2,
    add_cells_grid 2 3 0 0 plate = (Ok refs, s1)
    ∧ @analyze_all_cells release_nan "max" s1 = (Ok recs, s2)
    ∧ Z.of_nat (length recs) = 2 * 3.
Proof.
  destruct (@grid_then_analysis release_nan plate [[0; 10; 10]; [1; 2; 3]]
              2 3 0 0 "max")
    as (refs & s1 & recs & s2 & Hgrid & Hrun & Hlen & _);
    [reflexivity | repeat constructor | reflexivity | lia | lia | lia | lia
     | vm_compute; reflexivity | vm_compute; reflexivity
     | right; right; left; reflexivity |].
  exists refs, s1, recs, s2. repeat split; assumption.
Defined.

Lemma batch_grid_records_witness :
  ∃ records,
    @batch_process_images (stub_cv three_blobs) release_nan quiet_export
      "grid" (Some (mkGridParams 1 2 0 0)) two_files = Ok records
    ∧ Z.of_nat (length records) = 2 * (1 * 2).
Proof.
  destruct (@batch_grid_records (stub_cv three_blobs) release_nan
              quiet_export (mkGridParams 1 2 0 0) two_files)
    as (records & Hrun & Hlen & _);
    [simpl; lia | simpl; lia | discriminate
     | vm_compute; repeat constructor |].
  exists records. split; [exact Hrun | exact Hlen].
Defined.

Lemma batch_aborts_witness :
  @batch_process_images (stub_cv three_blobs) release_nan quiet_export
    "none" None two_files
  = Raise no_cells.
Proof.
  apply (proj2 (@batch_aborts (stub_cv three_blobs) release_nan quiet_export
                  "none" None)
           [] ("a.png", [[1; 2]; [3; 4]]) [("b.png", [[5; 6]])] no_cells);
    [constructor | vm_compute; reflexivity].
Defined.

Lemma batch_without_cells_witness :
  @batch_process_images (stub_cv [(2, 3, 20, 10, 50%Q)]) release_nan
    quiet_export "auto" None two_files
  = Raise no_cells.
Proof.
  apply (@batch_without_cells (stub_cv [(2, 3, 20, 10, 50%Q)]) release_nan
           quiet_export "auto" None [] "a.png" [[1; 2]; [3; 4]]
           [("b.png", [[5; 6]])]);
    [constructor |].
  right. split; [reflexivity |].
  repeat constructor.
Defined.

Lemma cell_region_left_of_grid_witness :
  cell_region [[10; 20; 30]] overhang = [[30]]
  ∧ Np.ravel (cell_region [[10; 20; 30]] (Cell_init (-1) 0 2 1 None)) = [].
Proof.
  split.
  - apply (proj1 (cell_region_left_of_grid [[10; 20; 30]] overhang
                    ltac:(repeat constructor)
                    ltac:(vm_compute; discriminate) eq_refl
                    ltac:(vm_compute; discriminate)
                    ltac:(vm_compute; discriminate)
                    ltac:(vm_compute; discriminate))).
  - apply (proj2 (cell_region_left_of_grid [[10; 20; 30]]
                    (Cell_init (-1) 0 2 1 None)
                    ltac:(repeat constructor)
                    ltac:(vm_compute; discriminate) eq_refl
                    ltac:(vm_compute; discriminate)
                    ltac:(vm_compute; discriminate)
                    ltac:(vm_compute; discriminate))).
    vm_compute. discriminate.
Defined.
